(** * kube-balance: the eviction decision engine

    A shallow embedding of the controller's reconciliation loop
    ([controllers/pod_rebalancer_controller.go]), of its helpers
    ([controllers/rebalancer_utils.go]) and of the workload-profile cache
    ([internal/profiles]), followed by the properties of the design
    document that hold, or fail, on that code.

    Conventions.
    - Go maps are [gmap]s; a map or slice that the code tests against
      [nil] is an [option] whose [None] is the nil value.
    - Go's [int] and [time.Duration] are [Z]; where the code does
      arithmetic on them the 64-bit wrap-around is written out.
    - Instants are [Z] nanoseconds since the Unix epoch.
    - Calls to the API server are answered by an environment record, and
      every request the controller issues, to the API server or to the
      event recorder, is appended to a trace.  Log lines are left out. *)

From stdpp Require Import base option gmap strings list sorting.
From Stdlib Require Import ZArith Lia Ascii.

Open Scope string_scope.
Open Scope list_scope.
Open Scope Z_scope.

(** ** Kubernetes objects, as far as the controller reads them *)

(** [resource.Quantity]: only its numeric value is read ([Cmp], [IsZero]);
    the value is kept in units of 10^-9, the finest scale a quantity holds. *)
Definition Quantity := Z.

(** [core.ResourceList = map[ResourceName]resource.Quantity]; [None] is the
    nil map. *)
Definition ResourceList := option (gmap string Quantity).

Definition ResourceCPU : string := "cpu".
Definition ResourceMemory : string := "memory".

(** [rl.Cpu()] and [rl.Memory()]: the entry, or a zero quantity when the key
    is missing (a lookup in a nil map finds nothing). *)
Definition resourceName (rl : ResourceList) (name : string) : Quantity :=
  match rl with
  | Some m => default 0 (m !! name)
  | None => 0
  end.

Definition Cpu (rl : ResourceList) : Quantity := resourceName rl ResourceCPU.
Definition Memory (rl : ResourceList) : Quantity := resourceName rl ResourceMemory.

(** [q.Cmp(y)]: -1, 0 or 1. *)
Definition Cmp (x y : Quantity) : Z :=
  match x ?= y with
  | Lt => -1
  | Eq => 0
  | Gt => 1
  end.

Definition IsZero (q : Quantity) : bool := q =? 0.

Record Container := {
  Requests : ResourceList;
  Limits : ResourceList
}.

Record OwnerReference := {
  refKind : string;
  refName : string;
  (** [Controller *bool]; [None] is the nil pointer *)
  refController : option bool
}.

Definition PodPhase := string.
Definition PodRunning : PodPhase := "Running".
Definition PodPending : PodPhase := "Pending".

Record Pod := {
  podName : string;
  podNamespace : string;
  podLabels : gmap string string;
  podOwnerReferences : list OwnerReference;
  podNodeName : string;
  podPhase : PodPhase;
  (** [Spec.Containers]; [None] is the nil slice *)
  podContainers : option (list Container)
}.

Record Node := {
  nodeName : string;
  nodeAnnotations : gmap string string
}.

(** ** QoS classification ([getPodQoSClass]) *)

Definition PodQOSClass := string.
Definition PodQOSGuaranteed : PodQOSClass := "Guaranteed".
Definition PodQOSBurstable : PodQOSClass := "Burstable".
Definition PodQOSBestEffort : PodQOSClass := "BestEffort".

(** [Requests == nil && Limits == nil] *)
Definition declaresNeither (c : Container) : bool :=
  match Requests c, Limits c with
  | None, None => true
  | _, _ => false
  end.

(** The CPU or the memory request compares different from the limit. *)
Definition requestDiffersFromLimit (c : Container) : bool :=
  negb (Cmp (Cpu (Requests c)) (Cpu (Limits c)) =? 0)
  || negb (Cmp (Memory (Requests c)) (Memory (Limits c)) =? 0).

(** The CPU or the memory request is zero. *)
Definition zeroRequest (c : Container) : bool :=
  IsZero (Cpu (Requests c)) || IsZero (Memory (Requests c)).

(** The loop over the containers, carrying the two flags [guaranteed] and
    [burstable]; the [break] leaves the loop with both flags cleared. *)
Fixpoint qosScan (cs : list Container) (guaranteed burstable : bool)
  : bool * bool :=
  match cs with
  | [] => (guaranteed, burstable)
  | container :: rest =>
      if declaresNeither container then (false, false)
      else
        let '(guaranteed, burstable) :=
          if requestDiffersFromLimit container then (false, true)
          else (guaranteed, burstable) in
        let guaranteed :=
          if zeroRequest container then false else guaranteed in
        qosScan rest guaranteed burstable
  end.

Definition getPodQoSClass (pod : Pod) : PodQOSClass :=
  match podContainers pod with
  | None => PodQOSBestEffort
  | Some cs =>
      let '(guaranteed, burstable) := qosScan cs true false in
      if guaranteed then PodQOSGuaranteed
      else if burstable then PodQOSBurstable
      else PodQOSBestEffort
  end.

(** [qosClassToEvictionRank] *)
Definition qosClassToEvictionRank (qos : PodQOSClass) : Z :=
  if decide (qos = PodQOSBestEffort) then 3
  else if decide (qos = PodQOSBurstable) then 2
  else if decide (qos = PodQOSGuaranteed) then 1
  else 0.

(** ** Workload profiles and the profile cache ([WorkloadProfileWatcher]) *)

Record WorkloadProfileSpec := {
  CPURequests : string;
  MemoryRequests : string;
  EvictionPriority : Z
}.

Record WorkloadProfile := {
  wpName : string;
  wpSpec : WorkloadProfileSpec
}.

(** What the informer hands to an event handler ([obj interface{}]): a
    workload profile, a [cache.DeletedFinalStateUnknown] tombstone around
    another object, or a value of some other type. *)
Inductive InformerObject :=
| ProfileObject (wp : WorkloadProfile)
| DeletedFinalStateUnknown (obj : InformerObject)
| ForeignObject.

(** The handlers act on the cached map under the write lock; events are
    applied one at a time, so a handler is a function on the map.  The
    unchecked type assertion on [obj] in [AddFunc] and
    [UpdateFunc] panics on any other value: [None]. *)
Definition AddFunc (obj : InformerObject) (profiles : gmap string WorkloadProfile)
  : option (gmap string WorkloadProfile) :=
  match obj with
  | ProfileObject wp => Some (<[wpName wp := wp]> profiles)
  | _ => None
  end.

Definition UpdateFunc (oldObj newObj : InformerObject)
    (profiles : gmap string WorkloadProfile)
  : option (gmap string WorkloadProfile) :=
  match newObj with
  | ProfileObject wp => Some (<[wpName wp := wp]> profiles)
  | _ => None
  end.

(** [DeleteFunc] uses checked assertions and returns without touching the
    map when the payload cannot be decoded. *)
Definition DeleteFunc (obj : InformerObject) (profiles : gmap string WorkloadProfile)
  : gmap string WorkloadProfile :=
  match obj with
  | ProfileObject wp => delete (wpName wp) profiles
  | DeletedFinalStateUnknown (ProfileObject wp) => delete (wpName wp) profiles
  | _ => profiles
  end.

(** [GetProfiles]: a fresh map filled entry by entry from the cached one. *)
Definition GetProfiles (profiles : gmap string WorkloadProfile)
  : gmap string WorkloadProfile :=
  map_fold (λ k v copiedProfiles, <[k := v]> copiedProfiles) ∅ profiles.

(** ** Errors *)

(** A Go [error]: an API status error, a plain message, or a message
    wrapping a cause ([fmt.Errorf] with [%w]). *)
Inductive error :=
| StatusError (reason : string) (code : Z)
| ErrorString (msg : string)
| WrapError (msg : string) (cause : error).

(** [errors.IsTooManyRequests]: looks through the wrapping for a status
    whose reason is TooManyRequests or whose code is 429. *)
Fixpoint IsTooManyRequests (err : error) : bool :=
  match err with
  | StatusError reason code =>
      bool_decide (reason = "TooManyRequests") || (code =? 429)
  | ErrorString _ => false
  | WrapError _ cause => IsTooManyRequests cause
  end.

Inductive result (A : Type) :=
| Ok (a : A)
| Err (err : error).
Arguments Ok {A} a.
Arguments Err {A} err.

(** ** Owners and disruption budgets *)

Inductive Kind := ReplicaSet | StatefulSet | Deployment.

#[export] Instance Kind_eq_dec : EqDecision Kind.
Proof. solve_decision. Defined.

(** A [client.Object] the controller fetched as an owner. *)
Record Object := {
  objKind : Kind;
  objName : string;
  objNamespace : string;
  (** [GetAnnotations()]; [None] is the nil map *)
  objAnnotations : option (gmap string string);
  objOwnerReferences : list OwnerReference
}.

(** A disruption budget.  Its [metav1.LabelSelector] is represented by what
    [LabelSelectorAsSelector] makes of it: an error, or the predicate
    [selector.Matches] on label sets. *)
Record PodDisruptionBudget := {
  pdbName : string;
  pdbSelector : result (gmap string string → bool);
  pdbDisruptionsAllowed : Z
}.

(** ** The Go runtime the controller relies on *)

(** [sort.Slice], [time.Parse(time.RFC3339, _)] and
    [Time.Format(time.RFC3339)] belong to the standard library; the
    controller is embedded over any implementation of them. *)
Class GoRuntime := {
  sortSlice : ∀ {A : Type}, (A → A → bool) → list A → list A;
  timeParse : string → option Z;
  timeFormat : Z → string
}.

(** What [sort.Slice] promises for a [less] that is a strict weak order: the
    slice is permuted, and afterwards no element is less than an earlier
    one.  It does not promise to keep equal elements in their order. *)
Definition StrictWeakOrder {A : Type} (less : A → A → bool) : Prop :=
  (∀ x, less x x = false)
  ∧ (∀ x y z, less x y = true → less y z = true → less x z = true)
  ∧ (∀ x y z, less x y = false → less y z = false → less x z = false).

Definition SortedBy {A : Type} (less : A → A → bool) (l : list A) : Prop :=
  StronglySorted (λ x y, less y x = false) l.

Definition SortSliceContract (sort : ∀ A : Type, (A → A → bool) → list A → list A)
  : Prop :=
  ∀ (A : Type) (less : A → A → bool) (l : list A),
    StrictWeakOrder less → sort A less l ≡ₚ l ∧ SortedBy less (sort A less l).

(** ** Constants of the controller *)

Definition NodeDegradedAnnotation : string := "kube-balance.io/degraded-io".
Definition WorkloadTypeLabel : string := "workload.k8s.io/type".
Definition EvictionCooldownAnnotation : string :=
  "kube-balance.io/eviction-cooldown-until".

(** [time.Second], in nanoseconds. *)
Definition Second : Z := 1000000000.

(** 64-bit two's complement wrap-around of [time.Duration] arithmetic. *)
Definition wrap64 (z : Z) : Z := (z + 2 ^ 63) mod 2 ^ 64 - 2 ^ 63.

(** The fields of [PodRebalancer] that [Reconcile] reads; [Profiles] is the
    map held by the profile watcher when the invocation starts. *)
Record PodRebalancer := {
  Profiles : gmap string WorkloadProfile;
  RecheckInterval : Z;
  MaxEvictionsPerNodePerCycle : Z
}.

(** [ctrl.Result] *)
Record Result := { RequeueAfter : Z }.

(** ** The surroundings of one invocation *)

(** Every request issued to the API server or to the event recorder. *)
Inductive Action :=
| ListNodes
| ListPods
| GetObject (kind : Kind) (namespace name : string)
| ListBudgets (namespace : string)
| CreateEviction (pod : Pod) (gracePeriodSeconds : Z)
| PatchObject (owner : Object)
| RecordEvent (eventtype reason object : string).

(** The answers of the surroundings during one invocation: the API server's
    replies, the order in which [range] walks the map of degraded nodes, and
    the time that passes after a reading of the clock. *)
Record Env := {
  listNodes : result (list Node);
  listPods : result (list Pod);
  getObject : Kind → string → string → result Object;
  listBudgets : string → result (list PodDisruptionBudget);
  createEviction : Pod → option error;
  patchObject : Object → option error;
  rangeOrder : gmap string Node → list string;
  elapse : Z → Z
}.

(** ** A monad for the invocation: the clock is threaded through, the
    requests issued are collected in order. *)

Definition M (A : Type) : Type := Z → A * Z * list Action.

#[export] Instance M_ret : MRet M := λ A a clock, (a, clock, []).
#[export] Instance M_bind : MBind M := λ A B f m clock,
  let '(a, clock1, issued1) := m clock in
  let '(b, clock2, issued2) := f a clock1 in
  (b, clock2, issued1 ++ issued2).

Definition issue (a : Action) : M () := λ clock, ((), clock, [a]).

(** The final value, clock and trace of a computation. *)
Definition valueOf {A} (out : A * Z * list Action) : A := out.1.1.
Definition clockOf {A} (out : A * Z * list Action) : Z := out.1.2.
Definition traceOf {A} (out : A * Z * list Action) : list Action := out.2.

(** ** The controller *)

Section Controller.
Context `{rt : GoRuntime}.
Variable env : Env.
Variable r : PodRebalancer.

(** [time.Now()]: the reading of the clock, after which time moves on.
    The clock is taken not to be set back while an invocation runs: a
    negative step of [elapse] counts as none. *)
Definition timeNow : M Z :=
  λ clock, (clock, clock + Z.max 0 (elapse env clock), []).

(** [r.Get(ctx, types.NamespacedName{...}, obj)] *)
Definition Get (kind : Kind) (namespace name : string) : M (result Object) :=
  _ ← issue (GetObject kind namespace name);
  mret (getObject env kind namespace name).

(** [ownerRef.Controller != nil && *ownerRef.Controller] *)
Definition isController (ref : OwnerReference) : bool :=
  match refController ref with
  | Some true => true
  | _ => false
  end.

(** The inner loop of [getPodOwner] over the owner references of a
    replica set: the deployment that controls it, or the replica set. *)
Fixpoint replicaSetOwner (pod : Pod) (rs : Object) (refs : list OwnerReference)
  : M (result (option Object)) :=
  match refs with
  | [] => mret (Ok (Some rs))
  | rsOwnerRef :: rest =>
      if isController rsOwnerRef
         && bool_decide (refKind rsOwnerRef = "Deployment") then
        got ← Get Deployment (podNamespace pod) (refName rsOwnerRef);
        match got with
        | Err err =>
            mret (Err (WrapError ("failed to get Deployment " +:+ refName rsOwnerRef) err))
        | Ok deploy => mret (Ok (Some deploy))
        end
      else replicaSetOwner pod rs rest
  end.

(** The outer loop of [getPodOwner]. *)
Fixpoint getPodOwnerFrom (pod : Pod) (refs : list OwnerReference)
  : M (result (option Object)) :=
  match refs with
  | [] => mret (Ok None)
  | ownerRef :: rest =>
      if isController ownerRef then
        if bool_decide (refKind ownerRef = "ReplicaSet") then
          got ← Get ReplicaSet (podNamespace pod) (refName ownerRef);
          match got with
          | Err err =>
              mret (Err (WrapError ("failed to get ReplicaSet " +:+ refName ownerRef) err))
          | Ok rs => replicaSetOwner pod rs (objOwnerReferences rs)
          end
        else if bool_decide (refKind ownerRef = "StatefulSet") then
          got ← Get StatefulSet (podNamespace pod) (refName ownerRef);
          match got with
          | Err err =>
              mret (Err (WrapError ("failed to get StatefulSet " +:+ refName ownerRef) err))
          | Ok ss => mret (Ok (Some ss))
          end
        else if bool_decide (refKind ownerRef = "Deployment") then
          got ← Get Deployment (podNamespace pod) (refName ownerRef);
          match got with
          | Err err =>
              mret (Err (WrapError ("failed to get deployment " +:+ refName ownerRef) err))
          | Ok deploy => mret (Ok (Some deploy))
          end
        else getPodOwnerFrom pod rest
      else getPodOwnerFrom pod rest
  end.

Definition getPodOwner (pod : Pod) : M (result (option Object)) :=
  getPodOwnerFrom pod (podOwnerReferences pod).

(** The loop of [checkPDB] over the budgets of the namespace. *)
Fixpoint checkBudgets (pod : Pod) (pdbs : list PodDisruptionBudget)
  : option error :=
  match pdbs with
  | [] => None
  | pdb :: rest =>
      match pdbSelector pdb with
      | Err _ => checkBudgets pod rest
      | Ok selector =>
          if selector (podLabels pod) && (pdbDisruptionsAllowed pdb =? 0) then
            Some (ErrorString ("eviction would violate PodDisruptionBudget " +:+ pdbName pdb))
          else checkBudgets pod rest
      end
  end.

Definition checkPDB (pod : Pod) : M (option error) :=
  _ ← issue (ListBudgets (podNamespace pod));
  match listBudgets env (podNamespace pod) with
  | Err err =>
      mret (Some (WrapError ("failed to list PodDisruptionBudgets in namespace "
                             +:+ podNamespace pod) err))
  | Ok pdbs => mret (checkBudgets pod pdbs)
  end.

(** [Evictor.EvictPod]: an eviction with a grace period of 30 seconds. *)
Definition EvictPod (pod : Pod) : M (option error) :=
  _ ← issue (CreateEviction pod 30);
  match createEviction env pod with
  | Some err =>
      mret (Some (WrapError ("failed to create eviction for pod "
                             +:+ podNamespace pod +:+ "/" +:+ podName pod) err))
  | None => mret None
  end.

(** [pod.Labels[WorkloadTypeLabel]]: the empty string without the label. *)
Definition workloadTypeOf (pod : Pod) : string :=
  default "" (podLabels pod !! WorkloadTypeLabel).

(** The [less] function handed to [sort.Slice]. *)
Definition podLess (workloadProfiles : gmap string WorkloadProfile)
    (podA podB : Pod) : bool :=
  let qosA := getPodQoSClass podA in
  let qosB := getPodQoSClass podB in
  if bool_decide (qosA ≠ qosB) then
    qosClassToEvictionRank qosB <? qosClassToEvictionRank qosA
  else
    match workloadProfiles !! workloadTypeOf podA,
          workloadProfiles !! workloadTypeOf podB with
    | None, None => false
    | None, Some _ => true
    | Some _, None => false
    | Some profileA, Some profileB =>
        EvictionPriority (wpSpec profileB) <? EvictionPriority (wpSpec profileA)
    end.

(** The ranking of the pods of one node. *)
Definition rankPods (workloadProfiles : gmap string WorkloadProfile)
    (podsOnDegradedNode : list Pod) : list Pod :=
  sortSlice (podLess workloadProfiles) podsOnDegradedNode.

(** [owner.GetAnnotations()[EvictionCooldownAnnotation]] *)
Definition cooldownAnnotation (owner : Object) : option string :=
  match objAnnotations owner with
  | Some annotations => annotations !! EvictionCooldownAnnotation
  | None => None
  end.

(** The cooldown check (lines 143-156): [true] when the pod is skipped
    because its owner's deadline parses and lies in the future.  The clock
    is read only when the deadline parses. *)
Definition ownerInCooldown (pod : Pod) (owner : result (option Object)) : M bool :=
  match owner with
  | Err _ => mret false
  | Ok None => mret false
  | Ok (Some owner) =>
      match cooldownAnnotation owner with
      | Some cooldownUntilStr =>
          match timeParse cooldownUntilStr with
          | Some cooldownUntil =>
              now ← timeNow;
              if now <? cooldownUntil then
                _ ← issue (RecordEvent "Normal" "EvictionSkipped" (podName pod));
                mret true
              else mret false
          | None => mret false
          end
      | None => mret false
      end
  end.

(** The owner with its cooldown annotation set to [cooldownUntil]. *)
Definition withCooldown (owner : Object) (cooldownUntil : Z) : Object :=
  let annotations := default ∅ (objAnnotations owner) in
  {| objKind := objKind owner;
     objName := objName owner;
     objNamespace := objNamespace owner;
     objAnnotations :=
       Some (<[EvictionCooldownAnnotation := timeFormat cooldownUntil]> annotations);
     objOwnerReferences := objOwnerReferences owner |}.

(** Setting the cooldown on the owner (lines 198-214); a failed patch is
    recorded and nothing else happens. *)
Definition setCooldown (owner : Object) : M () :=
  now ← timeNow;
  let cooldownUntil := now + wrap64 (RecheckInterval r * 2) in
  let owner := withCooldown owner cooldownUntil in
  _ ← issue (PatchObject owner);
  match patchObject env owner with
  | Some _ => issue (RecordEvent "Warning" "CooldownAnnotationFailed" (objName owner))
  | None => issue (RecordEvent "Normal" "CooldownSet" (objName owner))
  end.

(** How one turn of the loop over the ranked pods ends: with [continue],
    carrying the eviction counter, or with a [return] of [Reconcile]. *)
Inductive Flow :=
| Continue (evictedCount : Z)
| Return (res : Result) (err : option error).

(** The body of the loop over the ranked pods (lines 143-222). *)
Definition evaluatePod (nodeName : string)
    (workloadProfiles : gmap string WorkloadProfile)
    (pod : Pod) (evictedCount : Z) : M Flow :=
  got ← getPodOwner pod;
  skipped ← ownerInCooldown pod got;
  if (skipped : bool) then mret (Continue evictedCount)
  else
    pdbErr ← checkPDB pod;
    match pdbErr with
    | Some _ =>
        _ ← issue (RecordEvent "Warning" "PDBViolation" (podName pod));
        mret (Continue evictedCount)
    | None =>
        match workloadProfiles !! workloadTypeOf pod with
        | Some profile =>
            evictErr ← EvictPod pod;
            match evictErr with
            | Some err =>
                if IsTooManyRequests err then
                  _ ← issue (RecordEvent "Warning" "EvictionRateLimited" (podName pod));
                  mret (Return {| RequeueAfter := 10 * Second |} None)
                else
                  _ ← issue (RecordEvent "Warning" "EvictionFailed" (podName pod));
                  mret (Continue evictedCount)
            | None =>
                _ ← issue (RecordEvent "Normal" "PodEvicted" (podName pod));
                let evictedCount := wrap64 (evictedCount + 1) in
                _ ← match got with
                    | Ok (Some owner) => setCooldown owner
                    | _ => mret ()
                    end;
                mret (Return {| RequeueAfter := 5 * Second |} None)
            end
        | None => mret (Continue evictedCount)
        end
    end.

(** The loop over the ranked pods of one node (lines 136-223): [None] when
    the loop ends without a [return]. *)
Fixpoint walkPods (nodeName : string)
    (workloadProfiles : gmap string WorkloadProfile)
    (pods : list Pod) (evictedCount : Z) : M (option (Result * option error)) :=
  match pods with
  | [] => mret None
  | pod :: rest =>
      if MaxEvictionsPerNodePerCycle r <=? evictedCount then mret None
      else
        flow ← evaluatePod nodeName workloadProfiles pod evictedCount;
        match flow with
        | Continue evictedCount => walkPods nodeName workloadProfiles rest evictedCount
        | Return res err => mret (Some (res, err))
        end
  end.

(** The pods of the list that sit on the node and are running or pending. *)
Definition podsOn (nodeName : string) (podList : list Pod) : list Pod :=
  List.filter
    (λ pod, bool_decide (podNodeName pod = nodeName)
            && (bool_decide (podPhase pod = PodRunning)
                || bool_decide (podPhase pod = PodPending)))
    podList.

(** The loop over the degraded nodes (lines 94-224), in the order in which
    [range] yields their names. *)
Fixpoint processNodes (workloadProfiles : gmap string WorkloadProfile)
    (podList : list Pod) (nodeNames : list string)
  : M (option (Result * option error)) :=
  match nodeNames with
  | [] => mret None
  | nodeName :: rest =>
      let podsOnDegradedNode := podsOn nodeName podList in
      if bool_decide (length podsOnDegradedNode = 0%nat) then
        processNodes workloadProfiles podList rest
      else
        let podsOnDegradedNode := rankPods workloadProfiles podsOnDegradedNode in
        returned ← walkPods nodeName workloadProfiles podsOnDegradedNode 0;
        match returned with
        | Some res => mret (Some res)
        | None => processNodes workloadProfiles podList rest
        end
  end.

(** Collecting the degraded nodes (lines 69-77). *)
Fixpoint identifyDegraded (nodes : list Node) (degradedNodes : gmap string Node)
  : M (gmap string Node) :=
  match nodes with
  | [] => mret degradedNodes
  | node :: rest =>
      match nodeAnnotations node !! NodeDegradedAnnotation with
      | Some _ =>
          _ ← issue (RecordEvent "Normal" "NodeDegraded" (nodeName node));
          identifyDegraded rest (<[nodeName node := node]> degradedNodes)
      | None => identifyDegraded rest degradedNodes
      end
  end.

Definition Reconcile : M (Result * option error) :=
  let workloadProfiles := GetProfiles (Profiles r) in
  if bool_decide (size workloadProfiles = 0%nat) then
    mret ({| RequeueAfter := RecheckInterval r |}, None)
  else
    _ ← issue ListNodes;
    match listNodes env with
    | Err err => mret ({| RequeueAfter := 0 |}, Some err)
    | Ok nodeList =>
        degradedNodes ← identifyDegraded nodeList ∅;
        if bool_decide (size degradedNodes = 0%nat) then
          mret ({| RequeueAfter := RecheckInterval r |}, None)
        else
          _ ← issue ListPods;
          match listPods env with
          | Err err => mret ({| RequeueAfter := 0 |}, Some err)
          | Ok podList =>
              returned ← processNodes workloadProfiles podList
                           (rangeOrder env degradedNodes);
              match returned with
              | Some res => mret res
              | None => mret ({| RequeueAfter := RecheckInterval r |}, None)
              end
          end
    end.

End Controller.

(** ** Implementations of the runtime *)

(** Insertion sort, written as [sort.Slice] runs it on short slices: the
    sorted prefix is kept in reverse, and the next element moves left past
    every element it is less than. *)
Fixpoint insertLeft {A : Type} (less : A → A → bool) (x : A) (revPrefix : list A)
  : list A :=
  match revPrefix with
  | [] => [x]
  | y :: rest => if less x y then y :: insertLeft less x rest else x :: y :: rest
  end.

Definition insertionSort (A : Type) (less : A → A → bool) (l : list A) : list A :=
  rev (fold_left (λ revPrefix x, insertLeft less x revPrefix) l []).

(** A second sort that meets the promise of [sort.Slice] and leaves ties in
    another order than the first; it is not the standard library's, and
    serves to compare implementations of the promise. *)
Definition reversingSort (A : Type) (less : A → A → bool) (l : list A) : list A :=
  insertionSort A less (rev l).

(** RFC 3339 timestamps, in UTC on output; on input with an optional
    fraction of a second and [Z] or a numeric offset. *)
Module RFC3339.

Definition digit (n : Z) : ascii := ascii_of_nat (Z.to_nat (48 + n mod 10)).

Definition pad2 (n : Z) : list ascii := [digit (n / 10); digit n].

Definition pad4 (n : Z) : list ascii :=
  [digit (n / 1000); digit (n / 100); digit (n / 10); digit n].

(** Days since 1970-01-01 of a date of the proleptic Gregorian calendar. *)
Definition daysFromCivil (y m d : Z) : Z :=
  let y := if m <=? 2 then y - 1 else y in
  let era := y / 400 in
  let yoe := y - era * 400 in
  let doy := (153 * (if 2 <? m then m - 3 else m + 9) + 2) / 5 + d - 1 in
  let doe := yoe * 365 + yoe / 4 - yoe / 100 + doy in
  era * 146097 + doe - 719468.

Definition civilFromDays (z : Z) : Z * Z * Z :=
  let z := z + 719468 in
  let era := z / 146097 in
  let doe := z - era * 146097 in
  let yoe := (doe - doe / 1460 + doe / 36524 - doe / 146096) / 365 in
  let doy := doe - (365 * yoe + yoe / 4 - yoe / 100) in
  let mp := (5 * doy + 2) / 153 in
  let d := doy - (153 * mp + 2) / 5 + 1 in
  let m := if mp <? 10 then mp + 3 else mp - 9 in
  (yoe + era * 400 + (if m <=? 2 then 1 else 0), m, d).

(** [t.Format(time.RFC3339)] of an instant in nanoseconds: whole seconds. *)
Definition format (t : Z) : string :=
  let secs := t / 1000000000 in
  let '(y, m, d) := civilFromDays (secs / 86400) in
  let sod := secs mod 86400 in
  String.string_of_list_ascii
    (pad4 y ++ ["-"%char] ++ pad2 m ++ ["-"%char] ++ pad2 d ++ ["T"%char]
     ++ pad2 (sod / 3600) ++ [":"%char] ++ pad2 (sod mod 3600 / 60)
     ++ [":"%char] ++ pad2 (sod mod 60) ++ ["Z"%char]).

Definition digitOf (c : ascii) : option Z :=
  let n := Z.of_nat (nat_of_ascii c) in
  if (48 <=? n) && (n <=? 57) then Some (n - 48) else None.

(** The value of a non-empty run of decimal digits. *)
Fixpoint numberFrom (acc : Z) (cs : list ascii) : option Z :=
  match cs with
  | [] => Some acc
  | c :: rest =>
      match digitOf c with
      | Some n => numberFrom (acc * 10 + n) rest
      | None => None
      end
  end.

Definition number (cs : list ascii) : option Z :=
  match cs with
  | [] => None
  | _ => numberFrom 0 cs
  end.

Definition isChar (c : ascii) (cs : list ascii) (i : nat) : bool :=
  bool_decide (cs !! i = Some c).

Definition daysIn (y m : Z) : Z :=
  if m =? 2 then
    if ((y mod 4 =? 0) && negb (y mod 100 =? 0)) || (y mod 400 =? 0) then 29 else 28
  else if (m =? 4) || (m =? 6) || (m =? 9) || (m =? 11) then 30
  else 31.

(** The longest run of digits at the front. *)
Fixpoint leadingDigits (cs : list ascii) : list ascii :=
  match cs with
  | c :: rest =>
      match digitOf c with
      | Some _ => c :: leadingDigits rest
      | None => []
      end
  | [] => []
  end.

(** The digits of a fraction and what follows them. *)
Definition splitFraction (cs : list ascii) : option (Z * list ascii) :=
  match cs with
  | c :: rest =>
      if bool_decide (c = "."%char) then
        let ds := leadingDigits rest in
        match number (take 9 (ds ++ replicate 9 "0"%char)) with
        | Some nanos =>
            if bool_decide (ds = []) then None
            else Some (nanos, drop (length ds) rest)
        | None => None
        end
      else Some (0, cs)
  | [] => Some (0, cs)
  end.

(** Seconds east of UTC. *)
Definition zone (cs : list ascii) : option Z :=
  if bool_decide (cs = ["Z"%char]) then Some 0
  else if bool_decide (length cs = 6%nat) && isChar ":" cs 3
          && (isChar "+" cs 0 || isChar "-" cs 0) then
    match number (take 2 (drop 1 cs)), number (drop 4 cs) with
    | Some h, Some m =>
        if (h <=? 23) && (m <=? 59) then
          Some ((if isChar "-" cs 0 then -1 else 1) * (h * 3600 + m * 60))
        else None
    | _, _ => None
    end
  else None.

(** [time.Parse(time.RFC3339, s)]: the instant in nanoseconds, or [None]
    for a string that is not a timestamp. *)
Definition parse (s : string) : option Z :=
  let cs := String.list_ascii_of_string s in
  if isChar "-" cs 4 && isChar "-" cs 7 && isChar "T" cs 10
     && isChar ":" cs 13 && isChar ":" cs 16 then
    match number (take 4 cs), number (take 2 (drop 5 cs)),
          number (take 2 (drop 8 cs)), number (take 2 (drop 11 cs)),
          number (take 2 (drop 14 cs)), number (take 2 (drop 17 cs)),
          splitFraction (drop 19 cs) with
    | Some y, Some m, Some d, Some hh, Some mm, Some ss, Some (nanos, rest) =>
        match zone rest with
        | Some offset =>
            if (1 <=? m) && (m <=? 12) && (1 <=? d) && (d <=? daysIn y m)
               && (hh <=? 23) && (mm <=? 59) && (ss <=? 59) then
              Some ((daysFromCivil y m d * 86400 + hh * 3600 + mm * 60 + ss - offset)
                    * 1000000000 + nanos)
            else None
        | None => None
        end
    | _, _, _, _, _, _, _ => None
    end
  else None.

End RFC3339.

(** The runtime with insertion sort, and the one with the second sort. *)
Definition insertionRuntime : GoRuntime :=
  {| sortSlice := insertionSort;
     timeParse := RFC3339.parse;
     timeFormat := RFC3339.format |}.

Definition reversingRuntime : GoRuntime :=
  {| sortSlice := reversingSort;
     timeParse := RFC3339.parse;
     timeFormat := RFC3339.format |}.

(** * The properties of the design document, as predicates on the code *)

(** ** QoS classification, in the words of the design document *)

(** The sub-units of an instance. *)
Definition subUnits (pod : Pod) : list Container := default [] (podContainers pod).

(** BestEffort if any sub-unit declares neither requests nor limits;
    otherwise Burstable if any sub-unit's CPU or memory request differs from
    its limit; otherwise Guaranteed exactly when no sub-unit has a zero CPU
    or zero memory request. *)
Definition QoSAsDocumented (pod : Pod) : Prop :=
  ((∃ c, c ∈ subUnits pod ∧ declaresNeither c = true) →
     getPodQoSClass pod = PodQOSBestEffort)
  ∧ ((∀ c, c ∈ subUnits pod → declaresNeither c = false) →
       ((∃ c, c ∈ subUnits pod ∧ requestDiffersFromLimit c = true) →
          getPodQoSClass pod = PodQOSBurstable)
       ∧ ((∀ c, c ∈ subUnits pod → requestDiffersFromLimit c = false) →
            (getPodQoSClass pod = PodQOSGuaranteed
             ↔ ∀ c, c ∈ subUnits pod → zeroRequest c = false))).

(** ** Sample objects *)

Definition plainPod (name node : string) (labels : gmap string string)
    (containers : option (list Container)) : Pod :=
  {| podName := name; podNamespace := "default"; podLabels := labels;
     podOwnerReferences := []; podNodeName := node; podPhase := PodRunning;
     podContainers := containers |}.

(** A pod whose container slice is nil. *)
Definition podWithoutContainers : Pod := plainPod "empty" "node-1" ∅ None.

(** A container with equal, non-zero requests and limits. *)
Definition guaranteedContainer : Container :=
  {| Requests := Some {[ "cpu" := 500000000; "memory" := 134217728000000000 ]};
     Limits := Some {[ "cpu" := 500000000; "memory" := 134217728000000000 ]} |}.

Definition guaranteedPod : Pod :=
  plainPod "steady" "node-1" ∅ (Some [guaranteedContainer]).

Definition profileOf (name : string) (priority : Z) : WorkloadProfile :=
  {| wpName := name;
     wpSpec := {| CPURequests := "100m"; MemoryRequests := "128Mi";
                  EvictionPriority := priority |} |}.

(** ** Ranking *)

(** What the comparator reads of a pod: the eviction rank of its QoS class,
    and the eviction priority of the profile of its workload type, if any. *)
Definition sortKey (workloadProfiles : gmap string WorkloadProfile) (pod : Pod)
  : Z * option Z :=
  (qosClassToEvictionRank (getPodQoSClass pod),
   (λ profile, EvictionPriority (wpSpec profile))
     <$> workloadProfiles !! workloadTypeOf pod).

(** The order of the keys: higher rank first; within a rank, no profile
    first, then higher priority first. *)
Definition keyLt (k1 k2 : Z * option Z) : Prop :=
  k2.1 < k1.1
  ∨ (k1.1 = k2.1
     ∧ match k1.2, k2.2 with
       | None, Some _ => True
       | Some p1, Some p2 => p2 < p1
       | _, _ => False
       end).

Definition keyLe (k1 k2 : Z * option Z) : Prop := ¬ keyLt k2 k1.

(** The elements that compare equal to [x] under [less], in their order. *)
Definition tiesOf {A : Type} (less : A → A → bool) (x : A) (l : list A) : list A :=
  List.filter (λ y, negb (less x y) && negb (less y x)) l.

(** A ranking is stable when every group of elements that compare equal
    keeps its input order. *)
Definition StableRanking {A : Type} (less : A → A → bool) (input output : list A)
  : Prop :=
  ∀ x, tiesOf less x output = tiesOf less x input.

Definition sampleProfiles : gmap string WorkloadProfile :=
  {[ "batch-job" := profileOf "batch-job" 5;
     "critical-service" := profileOf "critical-service" 1 ]}.

(** BestEffort pods on node-1: two of profiled workload types, one without
    a workload type. *)
Definition bestEffortPod (name : string) (labels : gmap string string) : Pod :=
  plainPod name "node-1" labels (Some [ {| Requests := None; Limits := None |} ]).

Definition podA : Pod := bestEffortPod "a" {[ WorkloadTypeLabel := "batch-job" ]}.
Definition podB : Pod := bestEffortPod "b" {[ WorkloadTypeLabel := "critical-service" ]}.
Definition podU : Pod := bestEffortPod "u" ∅.

(** The reading of the design document: within a QoS class a pod without a
    matching profile is ranked after every pod with one. *)
Definition UnprofiledRankedLast (workloadProfiles : gmap string WorkloadProfile)
  : Prop :=
  ∀ unprofiled profiled : Pod,
    getPodQoSClass unprofiled = getPodQoSClass profiled →
    workloadProfiles !! workloadTypeOf unprofiled = None →
    is_Some (workloadProfiles !! workloadTypeOf profiled) →
    podLess workloadProfiles profiled unprofiled = true.

(** ** The trace of an invocation *)

Definition isEviction (a : Action) : bool :=
  match a with
  | CreateEviction _ _ => true
  | _ => false
  end.

Definition isPatch (a : Action) : bool :=
  match a with
  | PatchObject _ => true
  | _ => false
  end.

(** The owner that [getPodOwner] resolves for a pod; the lookup does not
    read the clock. *)
Definition ownerOf `{rt : GoRuntime} (env : Env) (pod : Pod) : result (option Object) :=
  valueOf (getPodOwner env pod 0).

(** The requests [getPodOwner] issues for a pod. *)
Definition ownerLookups `{rt : GoRuntime} (env : Env) (pod : Pod) : list Action :=
  traceOf (getPodOwner env pod 0).

(** The cooldown deadline an owner carries: its annotation, when it is a
    timestamp. *)
Definition deadlineOf `{rt : GoRuntime} (owner : Object) : option Z :=
  cooldownAnnotation owner ≫= timeParse.

(** The verdict of [checkPDB] for a pod. *)
Definition budgetVerdict `{rt : GoRuntime} (env : Env) (pod : Pod) : option error :=
  valueOf (checkPDB env pod 0).

(** A computation that neither reads nor moves the clock. *)
Definition Timeless {A} (m : M A) : Prop :=
  ∀ clock, m clock = (valueOf (m 0), clock, traceOf (m 0)).

(** Whether the cooldown check of the loop body skips a pod when the clock
    reads [now]. *)
Definition inCooldown `{rt : GoRuntime} (env : Env) (pod : Pod) (now : Z) : bool :=
  match ownerOf env pod with
  | Ok (Some owner) =>
      match deadlineOf owner with
      | Some deadline => now <? deadline
      | None => false
      end
  | _ => false
  end.

(** The clock after the cooldown check: it was read when the owner resolved
    with a deadline that parses. *)
Definition afterCooldownCheck `{rt : GoRuntime} (env : Env) (pod : Pod) (clock : Z) : Z :=
  match ownerOf env pod with
  | Ok (Some owner) =>
      match deadlineOf owner with
      | Some _ => clock + Z.max 0 (elapse env clock)
      | None => clock
      end
  | _ => clock
  end.

(** The walk of one invocation over the ranked pods of the degraded nodes,
    as a sequence of turns of the loop body: [Walk env r profiles clock
    visited trace clock' returned] says that the walk starts when the clock
    reads [clock], takes a turn for each pod of [visited] in order, issues
    [trace], and ends at [clock'] either because the last turn returned
    ([returned = Some _]) or because the loops ran out. *)
Inductive Walk `{rt : GoRuntime} (env : Env) (r : PodRebalancer)
    (workloadProfiles : gmap string WorkloadProfile)
  : Z → list Pod → list Action → Z → option (Result * option error) → Prop :=
| Walk_end clock :
    Walk env r workloadProfiles clock [] [] clock None
| Walk_continue clock nodeName pod clock1 issued visited rest clock2 returned :
    0 < MaxEvictionsPerNodePerCycle r →
    evaluatePod env r nodeName workloadProfiles pod 0 clock
    = (Continue 0, clock1, issued) →
    Walk env r workloadProfiles clock1 visited rest clock2 returned →
    Walk env r workloadProfiles clock (pod :: visited) (issued ++ rest) clock2 returned
| Walk_return clock nodeName pod clock1 issued res err :
    0 < MaxEvictionsPerNodePerCycle r →
    evaluatePod env r nodeName workloadProfiles pod 0 clock
    = (Return res err, clock1, issued) →
    Walk env r workloadProfiles clock [pod] issued clock1 (Some (res, err)).

(** The candidates of an invocation in the order of the walk: node by node
    in the order of [range], the pods of a node as ranked; none when the cap
    on evictions is not positive. *)
Definition candidatesOn `{rt : GoRuntime}
    (workloadProfiles : gmap string WorkloadProfile) (podList : list Pod)
    (nodeName : string) : list Pod :=
  if bool_decide (length (podsOn nodeName podList) = 0%nat) then []
  else rankPods workloadProfiles (podsOn nodeName podList).

Definition candidates `{rt : GoRuntime} (r : PodRebalancer)
    (workloadProfiles : gmap string WorkloadProfile) (podList : list Pod)
    (nodeNames : list string) : list Pod :=
  if MaxEvictionsPerNodePerCycle r <=? 0 then []
  else concat (candidatesOn workloadProfiles podList <$> nodeNames).

(** Why a turn for [pod] that starts when the clock reads [now] passes the
    pod over: its owner is in cooldown, a budget or the budget listing
    forbids it, its workload type has no profile, or the eviction request
    fails with an error other than a rate limit. *)
Definition PassedOver `{rt : GoRuntime} (env : Env)
    (workloadProfiles : gmap string WorkloadProfile) (pod : Pod) (now : Z) : Prop :=
  inCooldown env pod now = true
  ∨ is_Some (budgetVerdict env pod)
  ∨ workloadProfiles !! workloadTypeOf pod = None
  ∨ (∃ err, createEviction env pod = Some err ∧ IsTooManyRequests err = false).

(** An action that leaves the walk going: anything but a patch or an
    eviction request that the API server accepted or rate-limited. *)
Definition Uneventful (env : Env) (a : Action) : Prop :=
  match a with
  | CreateEviction pod _ =>
      ∃ err, createEviction env pod = Some err ∧ IsTooManyRequests err = false
  | PatchObject _ => False
  | _ => True
  end.

(** An action that examines no further candidate: an event or a patch. *)
Definition Aftermath (a : Action) : Prop :=
  match a with
  | RecordEvent _ _ _ | PatchObject _ => True
  | _ => False
  end.

(** The requests before the walk over the candidates. *)
Definition Setup (a : Action) : Prop :=
  match a with
  | ListNodes | ListPods => True
  | RecordEvent _ reason _ => reason = "NodeDegraded"
  | _ => False
  end.

(** The cooldown update after a successful eviction of [pod], when the clock
    reads [now]: one patch of the resolved owner and the event that reports
    how the patch went; nothing when no owner was resolved. *)
Definition cooldownUpdate `{rt : GoRuntime} (env : Env) (r : PodRebalancer)
    (pod : Pod) (now : Z) : list Action :=
  match ownerOf env pod with
  | Ok (Some owner) =>
      let patched := withCooldown owner (now + wrap64 (RecheckInterval r * 2)) in
      [PatchObject patched;
       match patchObject env patched with
       | Some _ => RecordEvent "Warning" "CooldownAnnotationFailed" (objName owner)
       | None => RecordEvent "Normal" "CooldownSet" (objName owner)
       end]
  | _ => []
  end.

(** How a turn that returns ends, after the request for [pod]: the request
    was rate-limited, or it succeeded and the cooldown is set at [now]. *)
Definition Ending `{rt : GoRuntime} (env : Env) (r : PodRebalancer)
    (pod : Pod) (now : Z) (res : Result) (post : list Action) : Prop :=
  (∃ err, createEviction env pod = Some err
          ∧ IsTooManyRequests err = true
          ∧ res = {| RequeueAfter := 10 * Second |}
          ∧ post = [RecordEvent "Warning" "EvictionRateLimited" (podName pod)])
  ∨ (createEviction env pod = None
     ∧ res = {| RequeueAfter := 5 * Second |}
     ∧ post = RecordEvent "Normal" "PodEvicted" (podName pod)
              :: cooldownUpdate env r pod now).

(** What holds of a pod for which an eviction request is issued at a turn
    that starts when the clock reads [now]. *)
Definition Executable `{rt : GoRuntime} (env : Env) (r : PodRebalancer)
    (workloadProfiles : gmap string WorkloadProfile) (pod : Pod) (now : Z) : Prop :=
  0 < MaxEvictionsPerNodePerCycle r
  ∧ inCooldown env pod now = false
  ∧ budgetVerdict env pod = None
  ∧ is_Some (workloadProfiles !! workloadTypeOf pod).

(** The degraded nodes an invocation collects from a list of nodes, and the
    events it records while doing so. *)
Definition degradedNodesOf (nodeList : list Node) : gmap string Node :=
  valueOf (identifyDegraded nodeList ∅ 0).

Definition degradedEvents (nodeList : list Node) : list Action :=
  traceOf (identifyDegraded nodeList ∅ 0).

(** The candidates of an invocation that lists [podList] and finds the
    degraded nodes of [nodeList]. *)
Definition candidatesOfInvocation `{rt : GoRuntime} (env : Env) (r : PodRebalancer)
    (nodeList : list Node) (podList : list Pod) : list Pod :=
  candidates r (Profiles r) podList (rangeOrder env (degradedNodesOf nodeList)).

(** An invocation gets as far as the walk: there are profiles, both listings
    succeed, and some node is degraded. *)
Definition ReachesWalk (env : Env) (r : PodRebalancer)
    (nodeList : list Node) (podList : list Pod) : Prop :=
  Profiles r ≠ ∅
  ∧ listNodes env = Ok nodeList
  ∧ degradedNodesOf nodeList ≠ ∅
  ∧ listPods env = Ok podList.

(** ** A sample cluster *)

Definition degradedNode : Node :=
  {| nodeName := "node-1";
     nodeAnnotations := {[ NodeDegradedAnnotation := "true" ]} |}.

Definition healthyNode : Node :=
  {| nodeName := "node-2"; nodeAnnotations := ∅ |}.

(** A BestEffort pod of the batch-job workload on node-1, controlled by the
    replica set web-rs of the deployment web. *)
Definition podW : Pod :=
  {| podName := "web-1"; podNamespace := "default";
     podLabels := {[ WorkloadTypeLabel := "batch-job" ]};
     podOwnerReferences :=
       [ {| refKind := "ReplicaSet"; refName := "web-rs";
            refController := Some true |} ];
     podNodeName := "node-1"; podPhase := PodRunning;
     podContainers := Some [ {| Requests := None; Limits := None |} ] |}.

Definition webReplicaSet : Object :=
  {| objKind := ReplicaSet; objName := "web-rs"; objNamespace := "default";
     objAnnotations := None;
     objOwnerReferences :=
       [ {| refKind := "Deployment"; refName := "web";
            refController := Some true |} ] |}.

Definition webDeployment (annotations : option (gmap string string)) : Object :=
  {| objKind := Deployment; objName := "web"; objNamespace := "default";
     objAnnotations := annotations; objOwnerReferences := [] |}.

(** The API server's answers to [Get] when the deployment web carries the
    given annotations. *)
Definition webObjects (annotations : option (gmap string string))
    (kind : Kind) (namespace name : string) : result Object :=
  if bool_decide (kind = ReplicaSet) && bool_decide (name = "web-rs") then
    Ok webReplicaSet
  else if bool_decide (kind = Deployment) && bool_decide (name = "web") then
    Ok (webDeployment annotations)
  else Err (StatusError "NotFound" 404).

Definition noObjects (kind : Kind) (namespace name : string) : result Object :=
  Err (StatusError "ServiceUnavailable" 503).

(** Surroundings in which both listings succeed, there are no disruption
    budgets, patches succeed, [range] walks the nodes in the order of the
    map, and a reading of the clock takes a millisecond. *)
Definition sampleEnv (nodes : list Node) (pods : list Pod)
    (objects : Kind → string → string → result Object)
    (evictions : Pod → option error) : Env :=
  {| listNodes := Ok nodes;
     listPods := Ok pods;
     getObject := objects;
     listBudgets := λ _, Ok [];
     createEviction := evictions;
     patchObject := λ _, None;
     rangeOrder := λ degradedNodes, (map_to_list degradedNodes).*1;
     elapse := λ _, 1000000 |}.

Definition sampleRebalancer : PodRebalancer :=
  {| Profiles := sampleProfiles;
     RecheckInterval := 120 * Second;
     MaxEvictionsPerNodePerCycle := 1 |}.

(** The instant 2026-01-01T00:00:00Z. *)
Definition newYear : Z := 1767225600 * Second.

Definition cooldownUntil (stamp : string) : option (gmap string string) :=
  Some {[ EvictionCooldownAnnotation := stamp ]}.

(** The API server accepts every eviction. *)
Definition accepted (pod : Pod) : option error := None.

(** The API server answers every eviction with 429. *)
Definition rateLimited (pod : Pod) : option error :=
  Some (StatusError "TooManyRequests" 429).

(** The API server refuses the eviction of pod a with an internal error and
    accepts the others. *)
Definition refusedForA (pod : Pod) : option error :=
  if bool_decide (podName pod = "a") then Some (StatusError "InternalError" 500)
  else None.

(** ** Sample invocations *)

(** No node is degraded. *)
Definition healthyCluster : Env :=
  sampleEnv [healthyNode] [podA; podB] noObjects accepted.

(** The only pod of the degraded node has no matching profile. *)
Definition unprofiledCluster : Env :=
  sampleEnv [degradedNode; healthyNode] [podU] noObjects accepted.

(** The eviction of the first-ranked pod fails with an internal error. *)
Definition refusingCluster : Env :=
  sampleEnv [degradedNode] [podB; podA] noObjects refusedForA.

(** Every eviction is rate-limited. *)
Definition throttledCluster : Env :=
  sampleEnv [degradedNode] [podB; podA] noObjects rateLimited.

(** The requests before the walk in the sample clusters with one degraded
    node. *)
Definition sampleSetup : list Action :=
  [ListNodes; RecordEvent "Normal" "NodeDegraded" "node-1"; ListPods].

(** The deployment web is in cooldown for another hour. *)
Definition coolingCluster : Env :=
  sampleEnv [degradedNode] [podW; podB]
    (webObjects (cooldownUntil "2026-01-01T01:00:00Z")) accepted.

(** The cooldown of the deployment web ended an hour ago. *)
Definition cooledCluster : Env :=
  sampleEnv [degradedNode] [podW]
    (webObjects (cooldownUntil "2025-12-31T23:00:00Z")) accepted.

(** The cooldown of the deployment web ends at the new year. *)
Definition expiringCluster : Env :=
  sampleEnv [degradedNode] [podW]
    (webObjects (cooldownUntil "2026-01-01T00:00:00Z")) accepted.

(** The cooldown annotation of the deployment web is not a timestamp. *)
Definition garbledCluster : Env :=
  sampleEnv [degradedNode] [podW] (webObjects (cooldownUntil "soon")) accepted.

(** The owner of the pod cannot be fetched. *)
Definition unreachableOwnerCluster : Env :=
  sampleEnv [degradedNode] [podW] noObjects accepted.

(** A controller started with a recheck interval of zero. *)
Definition hastyRebalancer : PodRebalancer :=
  {| Profiles := sampleProfiles;
     RecheckInterval := 0;
     MaxEvictionsPerNodePerCycle := 1 |}.

Definition webLookups : list Action :=
  [GetObject ReplicaSet "default" "web-rs"; GetObject Deployment "default" "web"].

(** A Burstable pod: its container requests less CPU than its limit. *)
Definition burstableContainer : Container :=
  {| Requests := Some {[ "cpu" := 250000000; "memory" := 134217728000000000 ]};
     Limits := Some {[ "cpu" := 500000000; "memory" := 134217728000000000 ]} |}.

Definition burstablePod : Pod :=
  plainPod "bursty" "node-1" {[ WorkloadTypeLabel := "critical-service" ]}
    (Some [guaranteedContainer; burstableContainer]).

(** ** Owner references, as [getPodOwner] reads them *)

(** A reference that the outer loop of [getPodOwner] acts on: a controller
    of one of the three kinds of the [switch]. *)
Definition recognisedController (ref : OwnerReference) : bool :=
  isController ref
  && (bool_decide (refKind ref = "ReplicaSet")
      || bool_decide (refKind ref = "StatefulSet")
      || bool_decide (refKind ref = "Deployment")).

(** A reference that the inner loop acts on: a controlling deployment. *)
Definition controllingDeployment (ref : OwnerReference) : bool :=
  isController ref && bool_decide (refKind ref = "Deployment").

(** A budget that forbids the eviction of a pod: its selector converts and
    matches the labels of the pod, and it allows no disruption. *)
Definition forbids (pdb : PodDisruptionBudget) (pod : Pod) : Prop :=
  ∃ selector, pdbSelector pdb = Ok selector
              ∧ selector (podLabels pod) = true
              ∧ pdbDisruptionsAllowed pdb = 0.

(** An eviction request that the API server accepts. *)
Definition acceptedEviction (env : Env) (a : Action) : bool :=
  match a with
  | CreateEviction pod _ =>
      match createEviction env pod with
      | None => true
      | Some _ => false
      end
  | _ => false
  end.

(** [node.Annotations[NodeDegradedAnnotation]] is present. *)
Definition isDegraded (node : Node) : bool :=
  match nodeAnnotations node !! NodeDegradedAnnotation with
  | Some _ => true
  | None => false
  end.

(** A budget of the default namespace that selects the pods labelled
    [app=db] and allows the given number of disruptions. *)
Definition dbBudget (allowed : Z) : PodDisruptionBudget :=
  {| pdbName := "db-pdb";
     pdbSelector := Ok (λ labels, bool_decide (labels !! "app" = Some "db"));
     pdbDisruptionsAllowed := allowed |}.

(** A budget whose selector does not convert. *)
Definition brokenBudget : PodDisruptionBudget :=
  {| pdbName := "broken";
     pdbSelector := Err (ErrorString "not a valid label selector operator");
     pdbDisruptionsAllowed := 0 |}.

(** A pod of the db application with a profiled workload type. *)
Definition podD : Pod :=
  bestEffortPod "d" {[ WorkloadTypeLabel := "batch-job"; "app" := "db" ]}.

(** The sample surroundings with the given budgets in every namespace. *)
Definition budgetedCluster (pdbs : list PodDisruptionBudget) : Env :=
  {| listNodes := Ok [degradedNode];
     listPods := Ok [podD; podB];
     getObject := noObjects;
     listBudgets := λ _, Ok pdbs;
     createEviction := accepted;
     patchObject := λ _, None;
     rangeOrder := λ degradedNodes, (map_to_list degradedNodes).*1;
     elapse := λ _, 1000000 |}.

(** A controller started with a cap of zero evictions. *)
Definition cappedRebalancer : PodRebalancer :=
  {| Profiles := sampleProfiles;
     RecheckInterval := 120 * Second;
     MaxEvictionsPerNodePerCycle := 0 |}.

(** A controller started with a cap of five evictions. *)
Definition generousRebalancer : PodRebalancer :=
  {| Profiles := sampleProfiles;
     RecheckInterval := 120 * Second;
     MaxEvictionsPerNodePerCycle := 5 |}.

(** ** [sort.Slice] as the Go standard library implements it

    The pattern-defeating quicksort of [sort/zsortfunc.go] (Go 1.19 and
    later), function by function, on a list standing for the slice.  Indices
    are natural numbers; every loop is a recursion on a bound that the loop
    cannot exceed. *)
Module GoSort.
Section Slice.
Context {A : Type} (less : A → A → bool).
#[local] Open Scope nat_scope.

(** [data.Less(i, j)] and [data.Swap(i, j)] *)
Definition Less (data : list A) (i j : nat) : bool :=
  match data !! i, data !! j with
  | Some x, Some y => less x y
  | _, _ => false
  end.

Definition Swap (data : list A) (i j : nat) : list A :=
  match data !! i, data !! j with
  | Some x, Some y => <[i := y]> (<[j := x]> data)
  | _, _ => data
  end.

(** The inner loop of [insertionSort_func]:
    [for j := i; j > a && data.Less(j, j-1); j-- { data.Swap(j, j-1) }] *)
Fixpoint insertionShift (data : list A) (a j : nat) : list A :=
  match j with
  | 0 => data
  | S j' =>
      if (a <? j) && Less data j j' then insertionShift (Swap data j j') a j'
      else data
  end.

Definition insertionSort_func (data : list A) (a b : nat) : list A :=
  fold_left (λ data i, insertionShift data a i) (seq (a + 1) (b - (a + 1))) data.

(** [siftDown_func]; [bound] bounds the number of turns of its loop. *)
Fixpoint siftDown_func (bound : nat) (data : list A) (root hi first : nat) : list A :=
  match bound with
  | 0 => data
  | S bound =>
      let child := 2 * root + 1 in
      if hi <=? child then data
      else
        let child :=
          if (child + 1 <? hi) && Less data (first + child) (first + child + 1)
          then child + 1 else child in
        if negb (Less data (first + root) (first + child)) then data
        else siftDown_func bound (Swap data (first + root) (first + child)) child hi first
  end.

Definition heapSort_func (data : list A) (a b : nat) : list A :=
  let first := a in
  let lo := 0 in
  let hi := b - a in
  let data :=
    fold_left (λ data i, siftDown_func hi data i hi first)
      (rev (seq 0 ((hi - 1) / 2 + 1))) data in
  fold_left (λ data i, siftDown_func hi (Swap data first (first + i)) lo i first)
    (rev (seq 0 hi)) data.

(** [bits.Len] *)
Definition bitsLen (n : nat) : nat :=
  match n with
  | 0 => 0
  | _ => Nat.log2 n + 1
  end.

(** [xorshift.Next] on 64 bits *)
Definition xorshiftNext (random : Z) : Z :=
  let random := Z.lxor random (Z.shiftl random 13 mod 2 ^ 64) in
  let random := Z.lxor random (Z.shiftr random 7) in
  Z.lxor random (Z.shiftl random 17 mod 2 ^ 64).

Definition breakPatterns_func (data : list A) (a b : nat) : list A :=
  let length := b - a in
  if 8 <=? length then
    let modulus := 2 ^ bitsLen length in
    let idx := a + (length / 4) * 2 - 1 in
    let step (st : list A * Z) (i : nat) : list A * Z :=
      let random := xorshiftNext st.2 in
      let other := Z.to_nat (Z.land random (Z.of_nat modulus - 1)) in
      let other := if length <=? other then other - length else other in
      (Swap st.1 (idx - 1 + i) (a + other), random) in
    (fold_left step [0; 1; 2] (data, Z.of_nat length)).1
  else data.

Inductive sortedHint := unknownHint | increasingHint | decreasingHint.

(** [order2_func], [median_func], [medianAdjacent_func]: the count of swaps
    is threaded through. *)
Definition order2_func (data : list A) (a b swaps : nat) : nat * nat * nat :=
  if Less data b a then (b, a, swaps + 1) else (a, b, swaps).

Definition median_func (data : list A) (a b c swaps : nat) : nat * nat :=
  let '(a, b, swaps) := order2_func data a b swaps in
  let '(b, c, swaps) := order2_func data b c swaps in
  let '(a, b, swaps) := order2_func data a b swaps in
  (b, swaps).

Definition medianAdjacent_func (data : list A) (a swaps : nat) : nat * nat :=
  median_func data (a - 1) a (a + 1) swaps.

Definition choosePivot_func (data : list A) (a b : nat) : nat * sortedHint :=
  let l := b - a in
  let i := a + l / 4 * 1 in
  let j := a + l / 4 * 2 in
  let k := a + l / 4 * 3 in
  let '(j, swaps) :=
    if 8 <=? l then
      let '(i, j, k, swaps) :=
        if 50 <=? l then
          let '(i, swaps) := medianAdjacent_func data i 0 in
          let '(j, swaps) := medianAdjacent_func data j swaps in
          let '(k, swaps) := medianAdjacent_func data k swaps in
          (i, j, k, swaps)
        else (i, j, k, 0) in
      median_func data i j k swaps
    else (j, 0) in
  if swaps =? 0 then (j, increasingHint)
  else if swaps =? 12 then (j, decreasingHint)
  else (j, unknownHint).

(** [reverseRange_func] *)
Fixpoint reverseLoop (bound : nat) (data : list A) (i j : nat) : list A :=
  match bound with
  | 0 => data
  | S bound => if i <? j then reverseLoop bound (Swap data i j) (i + 1) (j - 1) else data
  end.

Definition reverseRange_func (data : list A) (a b : nat) : list A :=
  reverseLoop (b - a) data a (b - 1).

(** [for i < b && !data.Less(i, i-1) { i++ }] *)
Fixpoint skipOrdered (bound : nat) (data : list A) (i b : nat) : nat :=
  match bound with
  | 0 => i
  | S bound =>
      if (i <? b) && negb (Less data i (i - 1)) then skipOrdered bound data (i + 1) b
      else i
  end.

(** [for j := i - 1; j >= 1; j-- { if !data.Less(j, j-1) { break }; data.Swap(j, j-1) }] *)
Fixpoint shiftLeft (data : list A) (j : nat) : list A :=
  match j with
  | 0 => data
  | S j' =>
      if (1 <=? j) && Less data j j' then shiftLeft (Swap data j j') j' else data
  end.

(** [for j := i + 1; j < b; j++ { if !data.Less(j, j-1) { break }; data.Swap(j, j-1) }] *)
Fixpoint shiftRight (bound : nat) (data : list A) (j b : nat) : list A :=
  match bound with
  | 0 => data
  | S bound =>
      if (j <? b) && Less data j (j - 1) then shiftRight bound (Swap data j (j - 1)) (j + 1) b
      else data
  end.

(** [partialInsertionSort_func]: the slice and whether it is sorted. *)
Fixpoint partialInsertionLoop (steps : nat) (data : list A) (a b i : nat)
  : list A * bool :=
  match steps with
  | 0 => (data, false)
  | S steps =>
      let i := skipOrdered (b - a) data i b in
      if i =? b then (data, true)
      else if b - a <? 50 then (data, false)
      else
        let data := Swap data i (i - 1) in
        let data := if 2 <=? i - a then shiftLeft data (i - 1) else data in
        let data := if 2 <=? b - i then shiftRight (b - a) data (i + 1) b else data in
        partialInsertionLoop steps data a b i
  end.

Definition partialInsertionSort_func (data : list A) (a b : nat) : list A * bool :=
  partialInsertionLoop 5 data a b (a + 1).

(** The scans of the partition functions; [j] runs down to [a], never below.
    [for i <= j && data.Less(i, a) { i++ }] *)
Fixpoint scanUp (bound : nat) (data : list A) (a i j : nat) : nat :=
  match bound with
  | 0 => i
  | S bound =>
      if (i <=? j) && Less data i a then scanUp bound data a (i + 1) j else i
  end.

(** [for i <= j && !data.Less(j, a) { j-- }] *)
Fixpoint scanDown (bound : nat) (data : list A) (a i j : nat) : nat :=
  match bound with
  | 0 => j
  | S bound =>
      if (i <=? j) && negb (Less data j a) then scanDown bound data a i (j - 1) else j
  end.

(** The endless [for] of [partition_func]. *)
Fixpoint partitionLoop (bound : nat) (data : list A) (a b i j : nat) : list A * nat :=
  match bound with
  | 0 => (data, j)
  | S bound =>
      let i := scanUp (b - a) data a i j in
      let j := scanDown (b - a) data a i j in
      if j <? i then (data, j)
      else partitionLoop bound (Swap data i j) a b (i + 1) (j - 1)
  end.

(** [partition_func]: the slice, the new place of the pivot, and whether
    the slice was already partitioned. *)
Definition partition_func (data : list A) (a b pivot : nat) : list A * nat * bool :=
  let data := Swap data a pivot in
  let i := scanUp (b - a) data a (a + 1) (b - 1) in
  let j := scanDown (b - a) data a i (b - 1) in
  if j <? i then (Swap data j a, j, true)
  else
    let '(data, j) := partitionLoop (b - a) (Swap data i j) a b (i + 1) (j - 1) in
    (Swap data j a, j, false).

(** [for i <= j && !data.Less(a, i) { i++ }] and
    [for i <= j && data.Less(a, j) { j-- }] *)
Fixpoint scanUpEqual (bound : nat) (data : list A) (a i j : nat) : nat :=
  match bound with
  | 0 => i
  | S bound =>
      if (i <=? j) && negb (Less data a i) then scanUpEqual bound data a (i + 1) j else i
  end.

Fixpoint scanDownEqual (bound : nat) (data : list A) (a i j : nat) : nat :=
  match bound with
  | 0 => j
  | S bound =>
      if (i <=? j) && Less data a j then scanDownEqual bound data a i (j - 1) else j
  end.

Fixpoint partitionEqualLoop (bound : nat) (data : list A) (a b i j : nat)
  : list A * nat :=
  match bound with
  | 0 => (data, i)
  | S bound =>
      let i := scanUpEqual (b - a) data a i j in
      let j := scanDownEqual (b - a) data a i j in
      if j <? i then (data, i)
      else partitionEqualLoop bound (Swap data i j) a b (i + 1) (j - 1)
  end.

Definition partitionEqual_func (data : list A) (a b pivot : nat) : list A * nat :=
  partitionEqualLoop (b - a) (Swap data a pivot) a b (a + 1) (b - 1).

(** [pdqsort_func]: one turn of its loop for each unit of [bound]; the two
    flags are the local variables [wasBalanced] and [wasPartitioned]. *)
Fixpoint pdqsort_func (bound : nat) (data : list A) (a b limit : nat)
    (wasBalanced wasPartitioned : bool) : list A :=
  match bound with
  | 0 => data
  | S bound =>
      let length := b - a in
      if length <=? 12 then insertionSort_func data a b
      else if limit =? 0 then heapSort_func data a b
      else
        let '(data, limit) :=
          if negb wasBalanced then (breakPatterns_func data a b, limit - 1)
          else (data, limit) in
        let '(pivot, hint) := choosePivot_func data a b in
        let '(data, pivot, hint) :=
          match hint with
          | decreasingHint =>
              (reverseRange_func data a b, (b - 1) - (pivot - a), increasingHint)
          | _ => (data, pivot, hint)
          end in
        let '(data, sorted) :=
          match wasBalanced && wasPartitioned, hint with
          | true, increasingHint => partialInsertionSort_func data a b
          | _, _ => (data, false)
          end in
        if sorted then data
        else if (0 <? a) && negb (Less data (a - 1) pivot) then
          let '(data, mid) := partitionEqual_func data a b pivot in
          pdqsort_func bound data mid b limit wasBalanced wasPartitioned
        else
          let '(data, mid, alreadyPartitioned) := partition_func data a b pivot in
          let leftLen := mid - a in
          let rightLen := b - mid in
          let balanceThreshold := length / 8 in
          if leftLen <? rightLen then
            let data := pdqsort_func bound data a mid limit true true in
            pdqsort_func bound data (mid + 1) b limit
              (balanceThreshold <=? leftLen) alreadyPartitioned
          else
            let data := pdqsort_func bound data (mid + 1) b limit true true in
            pdqsort_func bound data a mid limit
              (balanceThreshold <=? rightLen) alreadyPartitioned
  end.

(** [sort.Slice(x, less)] *)
Definition Slice (data : list A) : list A :=
  pdqsort_func (S (length data)) data 0 (length data) (bitsLen (length data)) true true.

End Slice.
End GoSort.

(** The runtime with the standard library's sort. *)
Definition goRuntime : GoRuntime :=
  {| sortSlice := @GoSort.Slice;
     timeParse := RFC3339.parse;
     timeFormat := RFC3339.format |}.

(** Twelve BestEffort pods of the batch-job workload on node-1, followed by
    the pod without a profile. *)
Definition batchPod (name : string) : Pod :=
  bestEffortPod name {[ WorkloadTypeLabel := "batch-job" ]}.

Definition thirteenPods : list Pod :=
  (batchPod <$> ["p00"; "p01"; "p02"; "p03"; "p04"; "p05";
                 "p06"; "p07"; "p08"; "p09"; "p10"; "p11"])
  ++ [podU].

(** A container whose requests and limits are declared but empty: nothing
    differs, and both requests are zero. *)
Definition unrequestedContainer : Container :=
  {| Requests := Some ∅; Limits := Some ∅ |}.

Definition unrequestedPod : Pod :=
  plainPod "idle" "node-1" ∅ (Some [unrequestedContainer]).

(** * Proofs *)

(** ** QoS classification *)

Lemma qosScan_char (cs : list Container) (guaranteed burstable : bool) :
  qosScan cs guaranteed burstable =
  if existsb declaresNeither cs then (false, false)
  else (guaranteed && forallb (λ c, negb (requestDiffersFromLimit c)) cs
                   && forallb (λ c, negb (zeroRequest c)) cs,
        burstable || existsb requestDiffersFromLimit cs).
Proof.
  revert guaranteed burstable.
  induction cs as [|c cs IH]; intros g b; simpl.
  - by destruct g, b.
  - destruct (declaresNeither c); [done|]. simpl.
    destruct (requestDiffersFromLimit c), (zeroRequest c); simpl;
      rewrite IH; destruct (existsb declaresNeither cs); try done;
      simpl; rewrite ?andb_false_r, ?orb_true_r; try done;
      by destruct g, b.
Qed.

Lemma existsb_elem_of {A} (f : A → bool) (l : list A) :
  existsb f l = true ↔ ∃ x, x ∈ l ∧ f x = true.
Proof.
  rewrite existsb_exists. split; intros (x & Hx & Hf); exists x;
    by rewrite <-?list_elem_of_In in *|| rewrite ?list_elem_of_In in *.
Qed.

Lemma existsb_false_elem_of {A} (f : A → bool) (l : list A) :
  existsb f l = false ↔ ∀ x, x ∈ l → f x = false.
Proof.
  split.
  - intros H x Hx. destruct (f x) eqn:Hf; [|done].
    assert (existsb f l = true) by (apply existsb_elem_of; eauto). congruence.
  - intros H. destruct (existsb f l) eqn:He; [|done].
    apply existsb_elem_of in He as (x & Hx & Hf). rewrite (H x Hx) in Hf. done.
Qed.

Lemma forallb_negb_elem_of {A} (f : A → bool) (l : list A) :
  forallb (λ x, negb (f x)) l = true ↔ ∀ x, x ∈ l → f x = false.
Proof.
  rewrite forallb_forall. split; intros H x Hx.
  - apply list_elem_of_In in Hx. apply H in Hx. by destruct (f x).
  - apply list_elem_of_In in Hx. rewrite (H x Hx). done.
Qed.

Lemma qos_of_containers (pod : Pod) (cs : list Container) :
  podContainers pod = Some cs →
  getPodQoSClass pod =
  if existsb declaresNeither cs then PodQOSBestEffort
  else if existsb requestDiffersFromLimit cs then PodQOSBurstable
  else if forallb (λ c, negb (zeroRequest c)) cs then PodQOSGuaranteed
  else PodQOSBestEffort.
Proof.
  intros Hcs. unfold getPodQoSClass. rewrite Hcs, qosScan_char.
  destruct (existsb declaresNeither cs); [done|].
  destruct (existsb requestDiffersFromLimit cs) eqn:Hd; simpl.
  - assert (forallb (λ c, negb (requestDiffersFromLimit c)) cs = false) as ->; [|done].
    apply not_true_is_false. rewrite forallb_negb_elem_of.
    apply existsb_elem_of in Hd as (c & Hc & Hd). intros H.
    rewrite (H c Hc) in Hd. done.
  - assert (forallb (λ c, negb (requestDiffersFromLimit c)) cs = true) as ->.
    { apply forallb_negb_elem_of. by apply existsb_false_elem_of. }
    by destruct (forallb _ cs).
Qed.

(** The classification returns one of the three classes. *)
Lemma getPodQoSClass_cases (pod : Pod) :
  getPodQoSClass pod = PodQOSGuaranteed
  ∨ getPodQoSClass pod = PodQOSBurstable
  ∨ getPodQoSClass pod = PodQOSBestEffort.
Proof.
  unfold getPodQoSClass. destruct (podContainers pod); [|auto].
  destruct (qosScan _ _ _) as [[] []]; auto.
Qed.

(** C3, as documented, fails on a pod whose container slice is nil: no
    sub-unit has a zero request, so the document classifies it Guaranteed,
    and the guard at the top of [getPodQoSClass] answers BestEffort. *)
Lemma qos_as_documented_fails_without_containers :
  getPodQoSClass podWithoutContainers = PodQOSBestEffort
  ∧ ¬ QoSAsDocumented podWithoutContainers.
Proof.
  split; [reflexivity|].
  intros (_ & H). destruct H as (_ & H).
  - intros c Hc. by apply elem_of_nil in Hc.
  - destruct H as [_ H].
    + intros c Hc. by apply elem_of_nil in Hc.
    + discriminate H. intros c Hc. by apply elem_of_nil in Hc.
Qed.

(** C3, amended: a pod whose container slice is nil is BestEffort; for every
    other pod the classification is the documented one, and where no
    container declares neither requests nor limits and no request differs
    from its limit, a container with a zero CPU or memory request makes the
    pod BestEffort. *)
Theorem getPodQoSClass_documented (pod : Pod) :
  (podContainers pod = None → getPodQoSClass pod = PodQOSBestEffort)
  ∧ (podContainers pod ≠ None → QoSAsDocumented pod)
  ∧ (podContainers pod ≠ None →
     (∀ c, c ∈ subUnits pod → declaresNeither c = false) →
     (∀ c, c ∈ subUnits pod → requestDiffersFromLimit c = false) →
     (∃ c, c ∈ subUnits pod ∧ zeroRequest c = true) →
     getPodQoSClass pod = PodQOSBestEffort).
Proof.
  split_and!.
  - intros H. unfold getPodQoSClass. by rewrite H.
  - destruct (podContainers pod) as [cs|] eqn:Hcs; [intros _|done].
    pose proof (qos_of_containers pod cs Hcs) as Hq.
    unfold QoSAsDocumented, subUnits. rewrite Hcs. simpl.
    split; [|intros Hn; split].
    + intros Hex. apply existsb_elem_of in Hex. by rewrite Hex in Hq.
    + intros Hex. apply existsb_false_elem_of in Hn. apply existsb_elem_of in Hex.
      by rewrite Hn, Hex in Hq.
    + intros Hd. apply existsb_false_elem_of in Hn, Hd. rewrite Hn, Hd in Hq.
      rewrite <-forallb_negb_elem_of.
      destruct (forallb _ cs); rewrite Hq; split; done.
  - destruct (podContainers pod) as [cs|] eqn:Hcs; [intros _|done].
    pose proof (qos_of_containers pod cs Hcs) as Hq.
    unfold subUnits. rewrite Hcs. simpl. intros Hn Hd (c & Hc & Hz).
    apply existsb_false_elem_of in Hn, Hd. rewrite Hn, Hd in Hq.
    assert (forallb (λ c, negb (zeroRequest c)) cs = false) as Hf.
    { apply not_true_is_false. rewrite forallb_negb_elem_of. intros H.
      rewrite (H c Hc) in Hz. done. }
    by rewrite Hf in Hq.
Qed.

Lemma getPodQoSClass_documented_witness :
  podContainers guaranteedPod ≠ None ∧ QoSAsDocumented guaranteedPod
  ∧ getPodQoSClass unrequestedPod = PodQOSBestEffort.
Proof.
  split; [done|]. split.
  - apply (getPodQoSClass_documented guaranteedPod). done.
  - apply (getPodQoSClass_documented unrequestedPod).
    + done.
    + intros c Hc. apply list_elem_of_singleton in Hc as ->. reflexivity.
    + intros c Hc. apply list_elem_of_singleton in Hc as ->. reflexivity.
    + exists unrequestedContainer. split; [apply list_elem_of_singleton|]; reflexivity.
Defined.

(** ** The profile cache *)

Lemma GetProfiles_copy (profiles : gmap string WorkloadProfile) :
  GetProfiles profiles = profiles.
Proof.
  unfold GetProfiles.
  apply (map_fold_weak_ind (λ copied m, copied = m)); [done|].
  by intros i x m copied _ ->.
Qed.

(** C9: an upsert of a profile stores it under its name and leaves the other
    keys alone; repeating the upsert, as an add or as an update, changes
    nothing more; and a delete of an absent key, also from a tombstone,
    returns the map as it was. *)
Theorem profile_store_idempotent (wp : WorkloadProfile) (oldObj : InformerObject)
    (profiles : gmap string WorkloadProfile) :
  (∃ stored,
      AddFunc (ProfileObject wp) profiles = Some stored
      ∧ UpdateFunc oldObj (ProfileObject wp) profiles = Some stored
      ∧ stored !! wpName wp = Some wp
      ∧ (∀ k, k ≠ wpName wp → stored !! k = profiles !! k)
      ∧ AddFunc (ProfileObject wp) stored = Some stored
      ∧ UpdateFunc oldObj (ProfileObject wp) stored = Some stored)
  ∧ (profiles !! wpName wp = None →
       DeleteFunc (ProfileObject wp) profiles = profiles
       ∧ DeleteFunc (DeletedFinalStateUnknown (ProfileObject wp)) profiles = profiles
       ∧ DeleteFunc (ProfileObject wp) (DeleteFunc (ProfileObject wp) profiles)
         = DeleteFunc (ProfileObject wp) profiles).
Proof.
  split.
  - exists (<[wpName wp := wp]> profiles). simpl.
    repeat split; try by rewrite insert_insert_eq.
    + apply lookup_insert_eq.
    + intros k Hk. by apply lookup_insert_ne.
  - intros Habsent. simpl. by rewrite !delete_id.
Qed.

Lemma profile_store_idempotent_witness :
  sampleProfiles !! "io-intensive" = None
  ∧ DeleteFunc (ProfileObject (profileOf "io-intensive" 3)) sampleProfiles
    = sampleProfiles.
Proof.
  split; [done|].
  apply (profile_store_idempotent (profileOf "io-intensive" 3) ForeignObject
           sampleProfiles).
  done.
Defined.

(** ** The comparator *)

Lemma rank_of_class (pod : Pod) :
  1 ≤ qosClassToEvictionRank (getPodQoSClass pod) ≤ 3.
Proof.
  destruct (getPodQoSClass_cases pod) as [-> | [-> | ->]]; by compute.
Qed.

Lemma rank_eq_class (podA podB : Pod) :
  qosClassToEvictionRank (getPodQoSClass podA)
  = qosClassToEvictionRank (getPodQoSClass podB)
  ↔ getPodQoSClass podA = getPodQoSClass podB.
Proof.
  split; [|by intros ->].
  destruct (getPodQoSClass_cases podA) as [-> | [-> | ->]],
           (getPodQoSClass_cases podB) as [-> | [-> | ->]];
    by compute.
Qed.

Lemma podLess_keyLt (workloadProfiles : gmap string WorkloadProfile) (podA podB : Pod) :
  podLess workloadProfiles podA podB = true
  ↔ keyLt (sortKey workloadProfiles podA) (sortKey workloadProfiles podB).
Proof.
  unfold podLess, keyLt, sortKey. simpl.
  case_bool_decide as Hq.
  - rewrite Z.ltb_lt. rewrite <-rank_eq_class in Hq. split; [auto|].
    intros [?|[? _]]; [done|]. by destruct Hq.
  - rewrite Hq.
    destruct (workloadProfiles !! workloadTypeOf podA),
             (workloadProfiles !! workloadTypeOf podB); simpl;
      rewrite ?Z.ltb_lt; split; try done; try lia; try tauto.
    all: intros [?|[_ ?]]; try lia; done.
Qed.

Lemma podLess_false_keyLe (workloadProfiles : gmap string WorkloadProfile)
    (podA podB : Pod) :
  podLess workloadProfiles podA podB = false
  ↔ keyLe (sortKey workloadProfiles podB) (sortKey workloadProfiles podA).
Proof.
  unfold keyLe. rewrite <-podLess_keyLt. by destruct (podLess _ _ _).
Qed.

Lemma keyLt_irrefl (k : Z * option Z) : ¬ keyLt k k.
Proof. destruct k as [rk [p|]]; unfold keyLt; simpl; lia. Qed.

Lemma keyLt_trans (k1 k2 k3 : Z * option Z) :
  keyLt k1 k2 → keyLt k2 k3 → keyLt k1 k3.
Proof.
  destruct k1 as [r1 [p1|]], k2 as [r2 [p2|]], k3 as [r3 [p3|]];
    unfold keyLt; simpl; lia.
Qed.

Lemma keyLe_trans (k1 k2 k3 : Z * option Z) :
  keyLe k1 k2 → keyLe k2 k3 → keyLe k1 k3.
Proof.
  destruct k1 as [r1 [p1|]], k2 as [r2 [p2|]], k3 as [r3 [p3|]];
    unfold keyLe, keyLt; simpl; lia.
Qed.

Lemma keyLe_antisym (k1 k2 : Z * option Z) : keyLe k1 k2 → keyLe k2 k1 → k1 = k2.
Proof.
  destruct k1 as [r1 [p1|]], k2 as [r2 [p2|]]; unfold keyLe, keyLt; simpl;
    intros H1 H2; try (exfalso; lia).
  - assert (r1 = r2 ∧ p1 = p2) as [-> ->] by lia. done.
  - assert (r1 = r2) as -> by lia. done.
Qed.

#[local] Instance keyLe_AntiSymm : AntiSymm (=) keyLe.
Proof. intros k1 k2. apply keyLe_antisym. Qed.

(** The comparator is a strict weak order, as [sort.Slice] requires. *)
Lemma podLess_strict_weak_order (workloadProfiles : gmap string WorkloadProfile) :
  StrictWeakOrder (podLess workloadProfiles).
Proof.
  split; [|split].
  - intros x. apply not_true_is_false. rewrite podLess_keyLt. apply keyLt_irrefl.
  - intros x y z. rewrite !podLess_keyLt. apply keyLt_trans.
  - intros x y z. rewrite !podLess_false_keyLe. intros ??. by eapply keyLe_trans.
Qed.

(** ** Sorting *)

Lemma StronglySorted_lookup_lt {A} (R : relation A) (l : list A) (i j : nat) (x y : A) :
  StronglySorted R l → (i < j)%nat → l !! i = Some x → l !! j = Some y → R x y.
Proof.
  intros Hs. revert i j. induction Hs as [|a l Hs IH Hall]; intros i j Hij Hi Hj.
  - done.
  - destruct j as [|j]; [lia|]. simpl in Hj. destruct i as [|i]; simpl in Hi.
    + injection Hi as ->. rewrite Forall_forall in Hall. apply Hall.
      eapply list_elem_of_lookup_2. done.
    + apply (IH i j); [lia|done..].
Qed.

Lemma StronglySorted_rev {A} (R : relation A) (l : list A) :
  StronglySorted (flip R) l → StronglySorted R (rev l).
Proof.
  induction 1 as [|a l Hs IH Hall]; simpl; [constructor|].
  apply StronglySorted_app; split_and!; [|done|repeat constructor].
  intros x1 x2 Hx1 ->%list_elem_of_singleton.
  rewrite Forall_forall in Hall. apply Hall.
  by apply list_elem_of_In, in_rev, list_elem_of_In.
Qed.

Section InsertionSort.
Context {A : Type} (less : A → A → bool).
Hypothesis Hswo : StrictWeakOrder less.

Lemma less_asym (x y : A) : less x y = true → less y x = false.
Proof.
  destruct Hswo as (Hirr & Htrans & _). intros Hxy.
  destruct (less y x) eqn:Hyx; [|done].
  by rewrite <-(Hirr x), (Htrans x y x Hxy Hyx).
Qed.

Lemma insertLeft_perm (x : A) (revPrefix : list A) :
  insertLeft less x revPrefix ≡ₚ x :: revPrefix.
Proof.
  induction revPrefix as [|y rest IH]; simpl; [done|].
  destruct (less x y); [|done]. rewrite IH. apply Permutation_swap.
Qed.

Lemma insertLeft_sorted (x : A) (revPrefix : list A) :
  StronglySorted (λ a b, less a b = false) revPrefix →
  StronglySorted (λ a b, less a b = false) (insertLeft less x revPrefix).
Proof.
  destruct Hswo as (Hirr & Htrans & Hneg).
  induction 1 as [|y rest Hs IH Hall]; simpl.
  - repeat constructor.
  - destruct (less x y) eqn:Hxy.
    + constructor; [done|]. rewrite insertLeft_perm. constructor; [|done].
      by apply less_asym.
    + constructor; [by constructor|]. constructor; [done|].
      eapply Forall_impl; [exact Hall|]. intros z Hyz. by apply (Hneg x y z).
Qed.

Lemma insertion_fold (l revPrefix : list A) :
  StronglySorted (λ a b, less a b = false) revPrefix →
  fold_left (λ acc x, insertLeft less x acc) l revPrefix ≡ₚ l ++ revPrefix
  ∧ StronglySorted (λ a b, less a b = false)
      (fold_left (λ acc x, insertLeft less x acc) l revPrefix).
Proof.
  revert revPrefix. induction l as [|x l IH]; intros acc Hacc; simpl; [done|].
  destruct (IH (insertLeft less x acc)) as [Hp Hs]; [by apply insertLeft_sorted|].
  split; [|done]. rewrite Hp, insertLeft_perm. by rewrite Permutation_middle.
Qed.

Lemma insertionSort_correct (l : list A) :
  insertionSort A less l ≡ₚ l ∧ SortedBy less (insertionSort A less l).
Proof.
  unfold insertionSort, SortedBy.
  destruct (insertion_fold l []) as [Hp Hs]; [constructor|].
  split.
  - rewrite <-Permutation_rev, Hp. by rewrite app_nil_r.
  - by apply StronglySorted_rev.
Qed.

End InsertionSort.

Lemma insertionSort_contract : SortSliceContract insertionSort.
Proof. intros A less l Hswo. by apply insertionSort_correct. Qed.

Lemma reversingSort_contract : SortSliceContract reversingSort.
Proof.
  intros A less l Hswo. unfold reversingSort.
  destruct (insertionSort_correct less Hswo (rev l)) as [Hp Hs].
  split; [|done]. by rewrite Hp, <-Permutation_rev.
Qed.

(** ** Ranking *)

Section Ranking.
Context `{rt : GoRuntime}.
Hypothesis Hsort : SortSliceContract (@sortSlice rt).
Variable workloadProfiles : gmap string WorkloadProfile.

Lemma rankPods_perm (pods : list Pod) : rankPods workloadProfiles pods ≡ₚ pods.
Proof. apply Hsort, podLess_strict_weak_order. Qed.

Lemma rankPods_sorted (pods : list Pod) :
  SortedBy (podLess workloadProfiles) (rankPods workloadProfiles pods).
Proof. apply Hsort, podLess_strict_weak_order. Qed.

Lemma rankPods_keys_sorted (pods : list Pod) :
  StronglySorted keyLe (sortKey workloadProfiles <$> rankPods workloadProfiles pods).
Proof.
  eapply StronglySorted_fmap; [|apply rankPods_sorted].
  intros x y Hless. by apply podLess_false_keyLe.
Qed.

(** A pod that is less than another stands before it in the ranking. *)
Lemma rankPods_less_before (pods : list Pod) (i j : nat) (a b : Pod) :
  rankPods workloadProfiles pods !! i = Some a →
  rankPods workloadProfiles pods !! j = Some b →
  podLess workloadProfiles a b = true →
  (i < j)%nat.
Proof.
  intros Hi Hj Hless.
  destruct (lt_eq_lt_dec i j) as [[?| ->]|Hji]; [done|..].
  - rewrite Hi in Hj. injection Hj as ->.
    destruct (podLess_strict_weak_order workloadProfiles) as (Hirr & _).
    by rewrite Hirr in Hless.
  - pose proof (StronglySorted_lookup_lt _ _ j i b a (rankPods_sorted pods) Hji Hj Hi)
      as Hnot.
    simpl in Hnot. by rewrite Hless in Hnot.
Qed.

End Ranking.

(** Two implementations of [sort.Slice] rank the pods into the same sequence
    of keys. *)
Lemma rankPods_keys_unique (rt1 rt2 : GoRuntime)
    (workloadProfiles : gmap string WorkloadProfile) (pods : list Pod) :
  SortSliceContract (@sortSlice rt1) →
  SortSliceContract (@sortSlice rt2) →
  sortKey workloadProfiles <$> rankPods (rt:=rt1) workloadProfiles pods
  = sortKey workloadProfiles <$> rankPods (rt:=rt2) workloadProfiles pods.
Proof.
  intros H1 H2. apply (StronglySorted_unique keyLe).
  - by apply rankPods_keys_sorted.
  - by apply rankPods_keys_sorted.
  - apply fmap_Permutation. by rewrite !rankPods_perm.
Qed.

(** C2, as documented, fails: of two BestEffort pods the comparator puts the
    one without a matching profile before the one with priority 5, and so
    does the ranking. *)
Lemma unprofiled_ranked_last_fails :
  ¬ UnprofiledRankedLast sampleProfiles
  ∧ podLess sampleProfiles podU podA = true
  ∧ rankPods (rt:=insertionRuntime) sampleProfiles [podA; podU] = [podU; podA].
Proof.
  split; [|split; vm_compute; reflexivity].
  intros H. specialize (H podU podA).
  assert (podLess sampleProfiles podA podU = false) as Hc by (vm_compute; reflexivity).
  rewrite H in Hc; [done|vm_compute; reflexivity..|].
  vm_compute. eauto.
Qed.

(** C2, amended: within a QoS class the comparator puts a pod without a
    matching profile before every pod with one, whatever the priority; two
    pods without a profile compare equal; of two pods with a profile the
    one with the higher priority comes first; and in the ranking a pod
    stands before every pod it is less than. *)
Theorem ranking_within_qos_class `{rt : GoRuntime}
    (workloadProfiles : gmap string WorkloadProfile) (a b : Pod) :
  SortSliceContract (@sortSlice rt) →
  getPodQoSClass a = getPodQoSClass b →
  (workloadProfiles !! workloadTypeOf a = None →
   is_Some (workloadProfiles !! workloadTypeOf b) →
   podLess workloadProfiles a b = true ∧ podLess workloadProfiles b a = false)
  ∧ (workloadProfiles !! workloadTypeOf a = None →
     workloadProfiles !! workloadTypeOf b = None →
     podLess workloadProfiles a b = false ∧ podLess workloadProfiles b a = false)
  ∧ (∀ profileA profileB,
       workloadProfiles !! workloadTypeOf a = Some profileA →
       workloadProfiles !! workloadTypeOf b = Some profileB →
       podLess workloadProfiles a b
       = (EvictionPriority (wpSpec profileB) <? EvictionPriority (wpSpec profileA)))
  ∧ (∀ pods i j,
       rankPods workloadProfiles pods !! i = Some a →
       rankPods workloadProfiles pods !! j = Some b →
       podLess workloadProfiles a b = true →
       (i < j)%nat).
Proof.
  intros Hsort Hq. split_and!.
  - intros Ha [profileB Hb]. unfold podLess.
    rewrite !bool_decide_eq_false_2 by (by rewrite Hq; intros []).
    by rewrite Ha, Hb.
  - intros Ha Hb. unfold podLess.
    rewrite !bool_decide_eq_false_2 by (by rewrite Hq; intros []).
    by rewrite Ha, Hb.
  - intros profileA profileB Ha Hb. unfold podLess.
    rewrite !bool_decide_eq_false_2 by (by rewrite Hq; intros []).
    by rewrite Ha, Hb.
  - intros pods i j. by apply rankPods_less_before.
Qed.

Lemma ranking_within_qos_class_witness :
  podLess sampleProfiles podU podB = true
  ∧ podLess sampleProfiles podB podU = false.
Proof.
  apply (ranking_within_qos_class (rt:=insertionRuntime) sampleProfiles podU podB).
  - exact insertionSort_contract.
  - reflexivity.
  - reflexivity.
  - vm_compute. eauto.
Defined.

(** Up to twelve elements [sort.Slice] is the insertion sort of the
    standard library. *)
Lemma Slice_short {A} (less : A → A → bool) (data : list A) :
  (length data ≤ 12)%nat →
  GoSort.Slice less data = GoSort.insertionSort_func less data 0 (length data).
Proof.
  intros Hlen. unfold GoSort.Slice. simpl. rewrite Nat.sub_0_r.
  by rewrite (proj2 (Nat.leb_le _ _) Hlen).
Qed.

(** C7, as documented, fails on thirteen candidates: twelve batch-job pods
    that compare equal, followed by a pod without a profile, which the
    comparator puts before them all.  [sort.Slice] is run as the standard
    library implements it.  With more than twelve elements it does not
    insertion-sort: [choosePivot_func] picks index 6, the adjacent pairs
    are in order up to the last one, so [partialInsertionSort_func] gives
    up, and [partition_func] swaps p06 to the front, exchanges p01 with the
    last pod and puts the pivot second.  The rest has eleven elements that
    compare equal and stays as it is.  So p06 ends before p00 and p01
    after p11. *)
Lemma ranking_not_stable :
  podLess sampleProfiles (batchPod "p00") (batchPod "p06") = false
  ∧ podLess sampleProfiles (batchPod "p06") (batchPod "p00") = false
  ∧ rankPods (rt:=goRuntime) sampleProfiles thirteenPods
    = podU :: (batchPod <$> ["p06"; "p02"; "p03"; "p04"; "p05"; "p00";
                             "p07"; "p08"; "p09"; "p10"; "p11"; "p01"])
  ∧ ¬ StableRanking (podLess sampleProfiles) thirteenPods
        (rankPods (rt:=goRuntime) sampleProfiles thirteenPods).
Proof.
  split_and!; [vm_compute; reflexivity..|].
  intros H. specialize (H (batchPod "p00")). vm_compute in H. discriminate H.
Qed.

(** C7, amended: the comparator is a strict weak order; the ranking is a
    permutation of the candidates in which no pod is less than an earlier
    one; and every implementation of [sort.Slice] produces the same
    sequence of sort keys, so that rankings differ at most in the order of
    pods that compare equal. *)
Theorem ranking_deterministic_up_to_ties `{rt : GoRuntime}
    (workloadProfiles : gmap string WorkloadProfile) (pods : list Pod) :
  SortSliceContract (@sortSlice rt) →
  StrictWeakOrder (podLess workloadProfiles)
  ∧ rankPods workloadProfiles pods ≡ₚ pods
  ∧ SortedBy (podLess workloadProfiles) (rankPods workloadProfiles pods)
  ∧ (∀ rt' : GoRuntime,
       SortSliceContract (@sortSlice rt') →
       sortKey workloadProfiles <$> rankPods (rt:=rt') workloadProfiles pods
       = sortKey workloadProfiles <$> rankPods workloadProfiles pods).
Proof.
  intros Hsort. split_and!.
  - apply podLess_strict_weak_order.
  - by apply rankPods_perm.
  - by apply rankPods_sorted.
  - intros rt' Hsort'. by apply rankPods_keys_unique.
Qed.

Lemma ranking_deterministic_up_to_ties_witness :
  rankPods (rt:=insertionRuntime) sampleProfiles [podB; podU; podA] ≡ₚ [podB; podU; podA]
  ∧ sortKey sampleProfiles
      <$> rankPods (rt:=reversingRuntime) sampleProfiles [podB; podU; podA]
    = sortKey sampleProfiles
      <$> rankPods (rt:=insertionRuntime) sampleProfiles [podB; podU; podA].
Proof.
  destruct (ranking_deterministic_up_to_ties (rt:=insertionRuntime) sampleProfiles
              [podB; podU; podA] insertionSort_contract) as (_ & Hperm & _ & Hkeys).
  split; [exact Hperm|]. exact (Hkeys reversingRuntime reversingSort_contract).
Defined.

(** ** Computations that do not touch the clock *)

Lemma Timeless_ret {A} (a : A) : Timeless (mret a).
Proof. done. Qed.

Lemma Timeless_issue (a : Action) : Timeless (issue a).
Proof. done. Qed.

Lemma Timeless_bind {A B} (m : M A) (f : A → M B) :
  Timeless m → (∀ a, Timeless (f a)) → Timeless (m ≫= f).
Proof.
  intros Hm Hf clock. unfold mbind, M_bind.
  rewrite (Hm clock). pose proof (Hm 0) as H0.
  destruct (m 0) as [[a c] tr]. unfold valueOf, traceOf in *. simpl in *.
  injection H0 as ->. rewrite (Hf a clock).
  by destruct (f a 0) as [[b c'] tr'].
Qed.

Section Lookups.
Context `{rt : GoRuntime} (env : Env).

Lemma Timeless_Get (kind : Kind) (namespace name : string) :
  Timeless (Get env kind namespace name).
Proof. done. Qed.

Lemma Timeless_replicaSetOwner (pod : Pod) (rs : Object) (refs : list OwnerReference) :
  Timeless (replicaSetOwner env pod rs refs).
Proof.
  induction refs as [|ref refs IH]; simpl; [done|].
  destruct (_ && _); [|done].
  apply Timeless_bind; [done|]. by intros [].
Qed.

Lemma Timeless_getPodOwner (pod : Pod) : Timeless (getPodOwner env pod).
Proof.
  unfold getPodOwner.
  induction (podOwnerReferences pod) as [|ref refs IH]; simpl; [done|].
  destruct (isController ref); [|done].
  repeat case_bool_decide; try done.
  - apply Timeless_bind; [done|]. intros []; [|done]. apply Timeless_replicaSetOwner.
  - apply Timeless_bind; [done|]. by intros [].
  - apply Timeless_bind; [done|]. by intros [].
Qed.

Lemma getPodOwner_run (pod : Pod) (clock : Z) :
  getPodOwner env pod clock = (ownerOf env pod, clock, ownerLookups env pod).
Proof. apply Timeless_getPodOwner. Qed.

Lemma checkPDB_run (pod : Pod) (clock : Z) :
  checkPDB env pod clock
  = (budgetVerdict env pod, clock, [ListBudgets (podNamespace pod)]).
Proof.
  unfold budgetVerdict, checkPDB, mbind, M_bind. simpl.
  by destruct (listBudgets env (podNamespace pod)).
Qed.

Lemma EvictPod_run (pod : Pod) (clock : Z) :
  EvictPod env pod clock
  = (valueOf (EvictPod env pod 0), clock, [CreateEviction pod 30]).
Proof.
  unfold EvictPod, mbind, M_bind. simpl.
  by destruct (createEviction env pod).
Qed.

Lemma EvictPod_value (pod : Pod) :
  match createEviction env pod with
  | Some err =>
      ∃ wrapped, valueOf (EvictPod env pod 0) = Some wrapped
                 ∧ IsTooManyRequests wrapped = IsTooManyRequests err
  | None => valueOf (EvictPod env pod 0) = None
  end.
Proof.
  unfold EvictPod, mbind, M_bind. simpl.
  destruct (createEviction env pod); [|done]. eexists. split; [done|done].
Qed.

(** The lookups of an owner are reads of single objects. *)
Lemma ownerLookups_gets (pod : Pod) :
  Forall (λ a, ∃ kind namespace name, a = GetObject kind namespace name)
    (ownerLookups env pod).
Proof.
  unfold ownerLookups, getPodOwner.
  assert (∀ rs refs, Forall (λ a, ∃ kind namespace name, a = GetObject kind namespace name)
            (traceOf (replicaSetOwner env pod rs refs 0))) as Hrs.
  { intros rs refs. induction refs as [|ref refs IH]; simpl; [constructor|].
    destruct (_ && _); [|done].
    unfold mbind, M_bind. simpl. destruct (getObject _ _ _ _); simpl; eauto. }
  induction (podOwnerReferences pod) as [|ref refs IH]; simpl; [constructor|].
  destruct (isController ref); [|done].
  repeat case_bool_decide; try done; unfold mbind, M_bind; simpl.
  - destruct (getObject _ _ _ _) as [rs|]; simpl; [|eauto].
    specialize (Hrs rs (objOwnerReferences rs)).
    destruct (replicaSetOwner _ _ _ _ _) as [[? ?] ?]. simpl in *.
    constructor; eauto.
  - destruct (getObject _ _ _ _); simpl; eauto.
  - destruct (getObject _ _ _ _); simpl; eauto.
Qed.

End Lookups.

(** ** One turn of the loop over the ranked pods *)

Section Turn.
Context `{rt : GoRuntime} (env : Env) (r : PodRebalancer).

Lemma bind_run {A B} (m : M A) (f : A → M B) (clock : Z) a clock1 issued1 :
  m clock = (a, clock1, issued1) →
  (m ≫= f) clock
  = (valueOf (f a clock1), clockOf (f a clock1), issued1 ++ traceOf (f a clock1)).
Proof.
  intros Hm. unfold mbind, M_bind. rewrite Hm.
  by destruct (f a clock1) as [[b c2] t2].
Qed.

Lemma ownerInCooldown_run (pod : Pod) (clock : Z) :
  ownerInCooldown env pod (ownerOf env pod) clock
  = (inCooldown env pod clock, afterCooldownCheck env pod clock,
     if inCooldown env pod clock
     then [RecordEvent "Normal" "EvictionSkipped" (podName pod)] else []).
Proof.
  unfold ownerInCooldown, inCooldown, afterCooldownCheck, deadlineOf.
  destruct (ownerOf env pod) as [[owner|]|]; try done.
  destruct (cooldownAnnotation owner) as [s|]; simpl; [|done].
  destruct (timeParse s) as [deadline|]; simpl; [|done].
  unfold mbind, M_bind, timeNow. by destruct (clock <? deadline).
Qed.

Lemma setCooldown_run (owner : Object) (clock : Z) :
  setCooldown env r owner clock
  = ((), clock + Z.max 0 (elapse env clock),
     let patched := withCooldown owner (clock + wrap64 (RecheckInterval r * 2)) in
     [PatchObject patched;
      match patchObject env patched with
      | Some _ => RecordEvent "Warning" "CooldownAnnotationFailed" (objName owner)
      | None => RecordEvent "Normal" "CooldownSet" (objName owner)
      end]).
Proof.
  unfold setCooldown, mbind, M_bind, timeNow, issue. simpl.
  by destruct (patchObject env _).
Qed.

(** The loop body, case by case. *)
Lemma evaluatePod_run (nodeName : string)
    (workloadProfiles : gmap string WorkloadProfile) (pod : Pod)
    (evictedCount clock : Z) :
  evaluatePod env r nodeName workloadProfiles pod evictedCount clock =
  let clock1 := afterCooldownCheck env pod clock in
  if inCooldown env pod clock then
    (Continue evictedCount, clock1,
     ownerLookups env pod ++ [RecordEvent "Normal" "EvictionSkipped" (podName pod)])
  else
    match budgetVerdict env pod with
    | Some _ =>
        (Continue evictedCount, clock1,
         ownerLookups env pod
         ++ [ListBudgets (podNamespace pod);
             RecordEvent "Warning" "PDBViolation" (podName pod)])
    | None =>
        match workloadProfiles !! workloadTypeOf pod with
        | None =>
            (Continue evictedCount, clock1,
             ownerLookups env pod ++ [ListBudgets (podNamespace pod)])
        | Some _ =>
            match createEviction env pod with
            | Some err =>
                if IsTooManyRequests err then
                  (Return {| RequeueAfter := 10 * Second |} None, clock1,
                   ownerLookups env pod
                   ++ [ListBudgets (podNamespace pod); CreateEviction pod 30;
                       RecordEvent "Warning" "EvictionRateLimited" (podName pod)])
                else
                  (Continue evictedCount, clock1,
                   ownerLookups env pod
                   ++ [ListBudgets (podNamespace pod); CreateEviction pod 30;
                       RecordEvent "Warning" "EvictionFailed" (podName pod)])
            | None =>
                match ownerOf env pod with
                | Ok (Some owner) =>
                    (Return {| RequeueAfter := 5 * Second |} None,
                     clock1 + Z.max 0 (elapse env clock1),
                     ownerLookups env pod
                     ++ [ListBudgets (podNamespace pod); CreateEviction pod 30;
                         RecordEvent "Normal" "PodEvicted" (podName pod)]
                     ++ traceOf (setCooldown env r owner clock1))
                | _ =>
                    (Return {| RequeueAfter := 5 * Second |} None, clock1,
                     ownerLookups env pod
                     ++ [ListBudgets (podNamespace pod); CreateEviction pod 30;
                         RecordEvent "Normal" "PodEvicted" (podName pod)])
                end
            end
        end
    end.
Proof.
  unfold evaluatePod, mbind, M_bind.
  rewrite getPodOwner_run, ownerInCooldown_run.
  destruct (inCooldown env pod clock); [done|].
  rewrite checkPDB_run.
  destruct (budgetVerdict env pod); [done|].
  destruct (workloadProfiles !! workloadTypeOf pod); [|done].
  rewrite EvictPod_run.
  pose proof (EvictPod_value env pod) as Hev.
  destruct (createEviction env pod) as [err|].
  - destruct Hev as (wrapped & -> & <-).
    by destruct (IsTooManyRequests wrapped).
  - rewrite Hev.
    destruct (ownerOf env pod) as [[owner|]|]; try done.
    simpl. rewrite !setCooldown_run. simpl. by rewrite ?app_nil_r.
Qed.

End Turn.

(** ** The walk over the candidates *)

Section Walks.
Context `{rt : GoRuntime} (env : Env) (r : PodRebalancer).
Variable workloadProfiles : gmap string WorkloadProfile.

Ltac turn_cases :=
  rewrite evaluatePod_run; simpl;
  repeat match goal with
         | |- context [match ?x with _ => _ end] => destruct x eqn:?
         end.

Lemma evaluatePod_continue (nodeName : string) (pod : Pod) (evictedCount clock : Z)
    (evictedCount' clock1 : Z) (issued : list Action) :
  evaluatePod env r nodeName workloadProfiles pod evictedCount clock
  = (Continue evictedCount', clock1, issued) →
  evictedCount' = evictedCount.
Proof. turn_cases; congruence. Qed.

Lemma Walk_app clock1 visited1 issued1 clock2 visited2 issued2 clock3 returned :
  Walk env r workloadProfiles clock1 visited1 issued1 clock2 None →
  Walk env r workloadProfiles clock2 visited2 issued2 clock3 returned →
  Walk env r workloadProfiles clock1 (visited1 ++ visited2) (issued1 ++ issued2)
    clock3 returned.
Proof.
  intros H1. remember None as none eqn:Hnone.
  induction H1 as [|? ? ? ? ? ? ? ? ? ? Hev ? IH|]; intros H2; [done| |done].
  rewrite <-app_assoc. simpl. eapply Walk_continue; eauto.
Qed.

(** The loop over the pods of one node is a walk over a prefix of them, and
    over all of them when it does not return. *)
Lemma walkPods_Walk (nodeName : string) (pods : list Pod) (clock : Z) :
  0 < MaxEvictionsPerNodePerCycle r →
  ∃ visited,
    Walk env r workloadProfiles clock visited
      (traceOf (walkPods env r nodeName workloadProfiles pods 0 clock))
      (clockOf (walkPods env r nodeName workloadProfiles pods 0 clock))
      (valueOf (walkPods env r nodeName workloadProfiles pods 0 clock))
    ∧ visited `prefix_of` pods
    ∧ (valueOf (walkPods env r nodeName workloadProfiles pods 0 clock) = None →
       visited = pods).
Proof.
  intros Hcap. revert clock. induction pods as [|pod rest IH]; intros clock; simpl.
  - exists []. split_and!; [apply Walk_end|done..].
  - rewrite (proj2 (Z.leb_gt _ _) Hcap). unfold mbind, M_bind.
    destruct (evaluatePod env r nodeName workloadProfiles pod 0 clock)
      as [[[count|res err] clock1] issued] eqn:Hev.
    + pose proof (evaluatePod_continue _ _ _ _ _ _ _ Hev) as ->.
      destruct (IH clock1) as (visited & Hw & Hpre & Hall).
      destruct (walkPods env r nodeName workloadProfiles rest 0 clock1)
        as [[returned clock2] issued2].
      unfold valueOf, clockOf, traceOf in *. simpl in *.
      exists (pod :: visited). split_and!.
      * eapply Walk_continue; eauto.
      * by apply prefix_cons.
      * intros ->. by rewrite Hall.
    + unfold valueOf, clockOf, traceOf. simpl. rewrite app_nil_r.
      exists [pod]. split_and!; [|by apply prefix_cons, prefix_nil|done].
      eapply Walk_return; eauto.
Qed.

(** So are the loops over the degraded nodes, for the candidates in the
    order of the walk. *)
Lemma processNodes_Walk (podList : list Pod) (nodeNames : list string) (clock : Z) :
  ∃ visited,
    Walk env r workloadProfiles clock visited
      (traceOf (processNodes env r workloadProfiles podList nodeNames clock))
      (clockOf (processNodes env r workloadProfiles podList nodeNames clock))
      (valueOf (processNodes env r workloadProfiles podList nodeNames clock))
    ∧ visited `prefix_of` candidates r workloadProfiles podList nodeNames
    ∧ (valueOf (processNodes env r workloadProfiles podList nodeNames clock) = None →
       visited = candidates r workloadProfiles podList nodeNames).
Proof.
  unfold candidates.
  destruct (MaxEvictionsPerNodePerCycle r <=? 0) eqn:Hcap.
  - exists []. split_and!; [|done|done].
    revert clock. induction nodeNames as [|nodeName rest IH]; intros clock; simpl.
    + apply Walk_end.
    + case_bool_decide; [apply IH|].
      destruct (rankPods workloadProfiles (podsOn nodeName podList)) as [|pod pods];
        unfold mbind, M_bind; simpl.
      * specialize (IH clock).
        destruct (processNodes env r workloadProfiles podList rest clock)
          as [[returned clock2] issued2].
        by unfold valueOf, clockOf, traceOf in *.
      * rewrite Hcap. unfold mret, M_ret. specialize (IH clock).
        destruct (processNodes env r workloadProfiles podList rest clock)
          as [[returned clock2] issued2].
        by unfold valueOf, clockOf, traceOf in *.
  - apply Z.leb_gt in Hcap.
    revert clock. induction nodeNames as [|nodeName rest IH]; intros clock; simpl.
    + exists []. split_and!; [apply Walk_end|done..].
    + unfold candidatesOn at 1 3. case_bool_decide; [apply IH|].
      unfold mbind, M_bind.
      destruct (walkPods_Walk nodeName
                  (rankPods workloadProfiles (podsOn nodeName podList)) clock Hcap)
        as (visited1 & Hw1 & Hpre1 & Hall1).
      destruct (walkPods env r nodeName workloadProfiles _ 0 clock)
        as [[[res|] clock1] issued1].
      * unfold valueOf, clockOf, traceOf in *. simpl in *. rewrite app_nil_r.
        exists visited1. split_and!; [done| |done].
        by apply prefix_app_r.
      * destruct (IH clock1) as (visited2 & Hw2 & Hpre2 & Hall2).
        destruct (processNodes env r workloadProfiles podList rest clock1)
          as [[returned clock2] issued2].
        unfold valueOf, clockOf, traceOf in *. simpl in *.
        rewrite <-(Hall1 eq_refl).
        exists (visited1 ++ visited2). split_and!.
        -- eapply Walk_app; eauto.
        -- by apply prefix_app.
        -- intros ->. by rewrite Hall2.
Qed.

(** The clock does not run backwards during a walk. *)
Lemma afterCooldownCheck_ge (pod : Pod) (clock : Z) :
  clock ≤ afterCooldownCheck env pod clock.
Proof.
  unfold afterCooldownCheck.
  destruct (ownerOf env pod) as [[owner|]|]; try lia.
  destruct (deadlineOf owner); lia.
Qed.

Lemma evaluatePod_clock (nodeName : string) (pod : Pod) (evictedCount clock : Z) :
  afterCooldownCheck env pod clock
  ≤ clockOf (evaluatePod env r nodeName workloadProfiles pod evictedCount clock).
Proof. turn_cases; unfold clockOf; simpl; lia. Qed.

Lemma evaluatePod_clock_eq (nodeName : string) (pod : Pod) (evictedCount clock : Z)
    (flow : Flow) (clock1 : Z) (issued : list Action) :
  evaluatePod env r nodeName workloadProfiles pod evictedCount clock
  = (flow, clock1, issued) →
  clock ≤ afterCooldownCheck env pod clock ≤ clock1.
Proof.
  intros Hev.
  pose proof (evaluatePod_clock nodeName pod evictedCount clock) as Hc.
  pose proof (afterCooldownCheck_ge pod clock).
  rewrite Hev in Hc. unfold clockOf in Hc. simpl in Hc. lia.
Qed.

Lemma Walk_clock clock visited issued clock' returned :
  Walk env r workloadProfiles clock visited issued clock' returned → clock ≤ clock'.
Proof.
  induction 1 as [|? ? ? ? ? ? ? ? ? ? Hev ? IH|? ? ? ? ? ? ? ? Hev].
  - lia.
  - apply evaluatePod_clock_eq in Hev. lia.
  - apply evaluatePod_clock_eq in Hev. lia.
Qed.

End Walks.

(** ** What a turn and a walk issue *)

Section Issued.
Context `{rt : GoRuntime} (env : Env) (r : PodRebalancer).
Variable workloadProfiles : gmap string WorkloadProfile.

Ltac turn_cases :=
  rewrite evaluatePod_run; simpl;
  repeat match goal with
         | |- context [match ?x with _ => _ end] => destruct x eqn:?
         end.

Lemma ownerLookups_uneventful (pod : Pod) :
  Forall (Uneventful env) (ownerLookups env pod).
Proof.
  eapply Forall_impl; [apply ownerLookups_gets|].
  by intros a (kind & namespace & name & ->).
Qed.

Lemma ownerLookups_no_eviction (pod p : Pod) (g : Z) :
  CreateEviction p g ∉ ownerLookups env pod.
Proof.
  intros Hin. pose proof (ownerLookups_gets env pod) as Hall.
  rewrite Forall_forall in Hall.
  by destruct (Hall _ Hin) as (? & ? & ? & ?).
Qed.

(** An eviction request of a turn is for the pod of the turn, which passed
    the cooldown check and the budget check and has a profile. *)
Lemma evaluatePod_eviction (nodeName : string) (pod : Pod) (evictedCount clock : Z)
    (p : Pod) (g : Z) :
  CreateEviction p g
    ∈ traceOf (evaluatePod env r nodeName workloadProfiles pod evictedCount clock) →
  p = pod ∧ g = 30
  ∧ inCooldown env pod clock = false
  ∧ budgetVerdict env pod = None
  ∧ is_Some (workloadProfiles !! workloadTypeOf pod).
Proof.
  pose proof (ownerLookups_no_eviction pod p g) as Hno.
  turn_cases; unfold traceOf; simpl; rewrite ?setCooldown_run; simpl;
    rewrite ?elem_of_app, ?elem_of_cons, ?elem_of_nil;
    intros Hin; repeat (destruct Hin as [Hin|Hin]; try done);
    simplify_eq; eauto 10.
  by destruct (patchObject env _).
Qed.

(** A turn that ends with [continue] is uneventful, and passes its pod over. *)
Lemma evaluatePod_continue_uneventful (nodeName : string) (pod : Pod)
    (evictedCount clock count clock1 : Z) (issued : list Action) :
  evaluatePod env r nodeName workloadProfiles pod evictedCount clock
  = (Continue count, clock1, issued) →
  Forall (Uneventful env) issued ∧ PassedOver env workloadProfiles pod clock.
Proof.
  pose proof (ownerLookups_uneventful pod) as Hlook.
  unfold PassedOver.
  turn_cases; intros [= <- <- <-]; (split; [apply Forall_app; split; try done;
    repeat constructor; simpl; eauto|eauto 10]).
Qed.

(** A turn that returns ends with the eviction request for its pod. *)
Lemma evaluatePod_return (nodeName : string) (pod : Pod)
    (evictedCount clock clock1 : Z) (res : Result) (err : option error)
    (issued : list Action) :
  evaluatePod env r nodeName workloadProfiles pod evictedCount clock
  = (Return res err, clock1, issued) →
  err = None
  ∧ inCooldown env pod clock = false
  ∧ budgetVerdict env pod = None
  ∧ is_Some (workloadProfiles !! workloadTypeOf pod)
  ∧ ∃ post,
      issued = (ownerLookups env pod ++ [ListBudgets (podNamespace pod)])
               ++ CreateEviction pod 30 :: post
      ∧ Ending env r pod (afterCooldownCheck env pod clock) res post.
Proof.
  turn_cases; intros [= <- <- <- <-]; split_and!; eauto;
    eexists; (split; [by rewrite <-app_assoc|]); unfold Ending, cooldownUpdate.
  - left. eauto.
  - right. rewrite setCooldown_run.
    match goal with H : ownerOf _ _ = _ |- _ => rewrite H end. done.
  - right. match goal with H : ownerOf _ _ = _ |- _ => rewrite H end. done.
  - right. match goal with H : ownerOf _ _ = _ |- _ => rewrite H end. done.
Qed.

(** Every eviction request of a walk is for a pod that was executable at
    some moment of the walk. *)
Lemma Walk_eviction clock visited issued clock' returned (p : Pod) (g : Z) :
  Walk env r workloadProfiles clock visited issued clock' returned →
  CreateEviction p g ∈ issued →
  g = 30 ∧ ∃ now, clock ≤ now ≤ clock' ∧ Executable env r workloadProfiles p now.
Proof.
  induction 1 as [|clock nodeName pod clock1 issued visited rest clock2 returned
                   Hcap Hev Hw IH
                  |clock nodeName pod clock1 issued res err Hcap Hev].
  - by intros ?%elem_of_nil.
  - pose proof (evaluatePod_clock_eq _ _ _ _ _ _ _ _ _ _ Hev) as Hc.
    pose proof (Walk_clock _ _ _ _ _ _ _ _ Hw) as Hc'.
    intros [Hin|Hin]%elem_of_app.
    + pose proof (evaluatePod_eviction nodeName pod 0 clock p g) as Hturn.
      rewrite Hev in Hturn. destruct (Hturn Hin) as (-> & -> & ? & ? & ?).
      split; [done|]. exists clock. unfold Executable. split_and!; eauto; lia.
    + destruct (IH Hin) as (-> & now & ? & ?). split; [done|].
      exists now. split; [lia|done].
  - pose proof (evaluatePod_clock_eq _ _ _ _ _ _ _ _ _ _ Hev) as Hc.
    intros Hin.
    pose proof (evaluatePod_eviction nodeName pod 0 clock p g) as Hturn.
    rewrite Hev in Hturn. destruct (Hturn Hin) as (-> & -> & ? & ? & ?).
    split; [done|]. exists clock. unfold Executable. split_and!; eauto; lia.
Qed.

(** A walk that runs out without a [return] is uneventful and passes over
    every pod it visits. *)
Lemma Walk_none clock visited issued clock' :
  Walk env r workloadProfiles clock visited issued clock' None →
  Forall (Uneventful env) issued
  ∧ Forall (λ p, ∃ now, clock ≤ now ≤ clock' ∧ PassedOver env workloadProfiles p now)
      visited.
Proof.
  intros Hw. remember None as none eqn:Hnone.
  induction Hw as [|clock nodeName pod clock1 issued visited rest clock2 returned
                    Hcap Hev Hw IH|]; [by split| |done].
  destruct (IH Hnone) as [Hrest Hvisited].
  destruct (evaluatePod_continue_uneventful _ _ _ _ _ _ _ Hev) as [Hturn Hpassed].
  pose proof (evaluatePod_clock_eq _ _ _ _ _ _ _ _ _ _ Hev) as Hc.
  pose proof (Walk_clock _ _ _ _ _ _ _ _ Hw) as Hc'.
  split; [by apply Forall_app|].
  constructor; [exists clock; split; [lia|done]|].
  eapply Forall_impl; [exact Hvisited|].
  intros p (now & ? & ?). exists now. split; [lia|done].
Qed.

(** A walk that returns is uneventful up to its last eviction request, which
    is for the last pod it visits; the pods before were passed over. *)
Lemma Walk_some clock visited issued clock' res err :
  Walk env r workloadProfiles clock visited issued clock' (Some (res, err)) →
  err = None
  ∧ ∃ pre pod post skipped check,
      issued = pre ++ CreateEviction pod 30 :: post
      ∧ Forall (Uneventful env) pre
      ∧ visited = skipped ++ [pod]
      ∧ Forall (λ p, ∃ now, clock ≤ now ≤ clock'
                            ∧ PassedOver env workloadProfiles p now) skipped
      ∧ clock ≤ check ∧ afterCooldownCheck env pod check ≤ clock'
      ∧ Executable env r workloadProfiles pod check
      ∧ Ending env r pod (afterCooldownCheck env pod check) res post.
Proof.
  intros Hw. remember (Some (res, err)) as some eqn:Hsome.
  induction Hw as [|clock nodeName pod clock1 issued visited rest clock2 returned
                    Hcap Hev Hw IH
                   |clock nodeName pod clock1 issued res' err' Hcap Hev]; [done|..].
  - destruct (IH Hsome)
      as (-> & pre & p & post & skipped & check & -> & Hpre & -> & Hskip & ? & ? & ? & ?).
    split; [done|].
    destruct (evaluatePod_continue_uneventful _ _ _ _ _ _ _ Hev) as [Hturn Hpassed].
    pose proof (evaluatePod_clock_eq _ _ _ _ _ _ _ _ _ _ Hev) as Hc.
    pose proof (Walk_clock _ _ _ _ _ _ _ _ Hw) as Hc'.
    exists (issued ++ pre), p, post, (pod :: skipped), check.
    split_and!; [by rewrite <-app_assoc|by apply Forall_app|done| |lia|lia|done|done].
    constructor; [exists clock; split; [lia|done]|].
    eapply Forall_impl; [exact Hskip|].
    intros q (now & ? & ?). exists now. split; [lia|done].
  - injection Hsome as -> ->.
    pose proof (evaluatePod_clock_eq _ _ _ _ _ _ _ _ _ _ Hev) as Hc.
    destruct (evaluatePod_return _ _ _ _ _ _ _ _ Hev)
      as (-> & ? & ? & ? & post & -> & Hend).
    split; [done|].
    exists (ownerLookups env pod ++ [ListBudgets (podNamespace pod)]), pod, post, [], clock.
    split_and!; [done| |done|done|lia|lia|by unfold Executable|done].
    apply Forall_app. split; [apply ownerLookups_uneventful|]. by repeat constructor.
Qed.

End Issued.

(** ** The invocation *)

Section Invocation.
Context `{rt : GoRuntime} (env : Env) (r : PodRebalancer).

Lemma Timeless_identifyDegraded (nodes : list Node) (degradedNodes : gmap string Node) :
  Timeless (identifyDegraded nodes degradedNodes).
Proof.
  revert degradedNodes. induction nodes as [|node rest IH]; intros m; simpl; [done|].
  destruct (nodeAnnotations node !! NodeDegradedAnnotation); [|done].
  apply Timeless_bind; [done|]. intros _. apply IH.
Qed.

Lemma identifyDegraded_setup (nodes : list Node) (degradedNodes : gmap string Node) :
  Forall Setup (traceOf (identifyDegraded nodes degradedNodes 0)).
Proof.
  revert degradedNodes. induction nodes as [|node rest IH]; intros m; simpl.
  - constructor.
  - destruct (nodeAnnotations node !! NodeDegradedAnnotation); [|done].
    unfold mbind, M_bind. simpl. specialize (IH (<[nodeName node:=node]> m)).
    destruct (identifyDegraded rest _ 0) as [[? ?] ?].
    by constructor.
Qed.

(** Without a degraded node nothing is collected and nothing recorded. *)
Lemma identifyDegraded_none (nodes : list Node) (degradedNodes : gmap string Node)
    (clock : Z) :
  (∀ node, node ∈ nodes → nodeAnnotations node !! NodeDegradedAnnotation = None) →
  identifyDegraded nodes degradedNodes clock = (degradedNodes, clock, []).
Proof.
  induction nodes as [|node rest IH]; intros Hnone; simpl; [done|].
  rewrite (Hnone node) by (apply elem_of_cons; by left).
  apply IH. intros n Hn. apply Hnone. apply elem_of_cons. by right.
Qed.

Lemma Reconcile_no_profiles (clock : Z) :
  Profiles r = ∅ →
  Reconcile env r clock = ({| RequeueAfter := RecheckInterval r |}, None, clock, []).
Proof.
  intros Hempty. unfold Reconcile. rewrite GetProfiles_copy, Hempty.
  by rewrite bool_decide_eq_true_2.
Qed.

Lemma Reconcile_list_nodes_fails (clock : Z) (err : error) :
  Profiles r ≠ ∅ →
  listNodes env = Err err →
  Reconcile env r clock = ({| RequeueAfter := 0 |}, Some err, clock, [ListNodes]).
Proof.
  intros Hprofiles Hlist. unfold Reconcile. rewrite GetProfiles_copy.
  rewrite bool_decide_eq_false_2 by by rewrite map_size_empty_iff.
  unfold mbind, M_bind. simpl. by rewrite Hlist.
Qed.

Lemma Reconcile_no_degraded (clock : Z) (nodeList : list Node) :
  Profiles r ≠ ∅ →
  listNodes env = Ok nodeList →
  degradedNodesOf nodeList = ∅ →
  Reconcile env r clock
  = ({| RequeueAfter := RecheckInterval r |}, None, clock,
     ListNodes :: degradedEvents nodeList).
Proof.
  intros Hprofiles Hlist Hnone. unfold Reconcile. rewrite GetProfiles_copy.
  rewrite bool_decide_eq_false_2 by by rewrite map_size_empty_iff.
  unfold mbind, M_bind. simpl. rewrite Hlist.
  rewrite (Timeless_identifyDegraded nodeList ∅ clock).
  fold (degradedNodesOf nodeList). fold (degradedEvents nodeList). rewrite Hnone.
  rewrite bool_decide_eq_true_2 by done. simpl. by rewrite app_nil_r.
Qed.

Lemma Reconcile_list_pods_fails (clock : Z) (nodeList : list Node) (err : error) :
  Profiles r ≠ ∅ →
  listNodes env = Ok nodeList →
  degradedNodesOf nodeList ≠ ∅ →
  listPods env = Err err →
  Reconcile env r clock
  = ({| RequeueAfter := 0 |}, Some err, clock,
     ListNodes :: degradedEvents nodeList ++ [ListPods]).
Proof.
  intros Hprofiles Hlist Hsome Hpods. unfold Reconcile. rewrite GetProfiles_copy.
  rewrite bool_decide_eq_false_2 by by rewrite map_size_empty_iff.
  unfold mbind, M_bind. simpl. rewrite Hlist.
  rewrite (Timeless_identifyDegraded nodeList ∅ clock).
  fold (degradedNodesOf nodeList). fold (degradedEvents nodeList).
  rewrite bool_decide_eq_false_2 by by rewrite map_size_empty_iff.
  simpl. by rewrite Hpods.
Qed.

Lemma Reconcile_walks (clock : Z) (nodeList : list Node) (podList : list Pod) :
  ReachesWalk env r nodeList podList →
  let walk := processNodes env r (Profiles r) podList
                (rangeOrder env (degradedNodesOf nodeList)) clock in
  Reconcile env r clock
  = (default ({| RequeueAfter := RecheckInterval r |}, None) (valueOf walk),
     clockOf walk,
     ListNodes :: degradedEvents nodeList ++ ListPods :: traceOf walk).
Proof.
  intros (Hprofiles & Hlist & Hsome & Hpods). unfold Reconcile.
  rewrite GetProfiles_copy.
  rewrite bool_decide_eq_false_2 by by rewrite map_size_empty_iff.
  unfold mbind, M_bind. simpl. rewrite Hlist.
  rewrite (Timeless_identifyDegraded nodeList ∅ clock).
  fold (degradedNodesOf nodeList). fold (degradedEvents nodeList).
  rewrite bool_decide_eq_false_2 by by rewrite map_size_empty_iff.
  simpl. rewrite Hpods.
  destruct (processNodes env r (Profiles r) podList _ clock) as [[[res|] c] tr];
    unfold valueOf, clockOf, traceOf; simpl; by rewrite app_nil_r.
Qed.

(** Every invocation is some requests of the setup followed by a walk. *)
Lemma Reconcile_Walk (clock : Z) :
  ∃ setup visited body returned,
    traceOf (Reconcile env r clock) = setup ++ body
    ∧ Forall Setup setup
    ∧ Walk env r (Profiles r) clock visited body (clockOf (Reconcile env r clock))
        returned
    ∧ match returned with
      | Some res => valueOf (Reconcile env r clock) = res
      | None =>
          valueOf (Reconcile env r clock) = ({| RequeueAfter := RecheckInterval r |}, None)
          ∨ ∃ err, valueOf (Reconcile env r clock) = ({| RequeueAfter := 0 |}, Some err)
      end
    ∧ ∀ nodeList podList,
        ReachesWalk env r nodeList podList →
        visited `prefix_of` candidatesOfInvocation env r nodeList podList
        ∧ (returned = None → visited = candidatesOfInvocation env r nodeList podList).
Proof.
  destruct (decide (Profiles r = ∅)) as [Hempty|Hprofiles].
  { rewrite Reconcile_no_profiles by done.
    exists [], [], [], None. split_and!; [done|constructor|apply Walk_end|by left|].
    by intros ?? (? & _). }
  destruct (listNodes env) as [nodeList|err] eqn:Hlist; cycle 1.
  { rewrite (Reconcile_list_nodes_fails _ err) by done.
    exists [ListNodes], [], [], None.
    split_and!; [done|by repeat constructor|apply Walk_end|right; eauto|].
    intros ?? (_ & ? & _). congruence. }
  destruct (decide (degradedNodesOf nodeList = ∅)) as [Hnone|Hsome].
  { rewrite (Reconcile_no_degraded _ nodeList) by done.
    exists (ListNodes :: degradedEvents nodeList), [], [], None.
    split_and!; [by rewrite app_nil_r| |apply Walk_end|by left|].
    - constructor; [done|apply identifyDegraded_setup].
    - intros ?? (_ & ? & ? & _). congruence. }
  destruct (listPods env) as [podList|err] eqn:Hpods; cycle 1.
  { rewrite (Reconcile_list_pods_fails _ nodeList err) by done.
    exists (ListNodes :: degradedEvents nodeList ++ [ListPods]), [], [], None.
    split_and!; [by rewrite app_nil_r| |apply Walk_end|right; eauto|].
    - constructor; [done|]. apply Forall_app. split; [apply identifyDegraded_setup|].
      by repeat constructor.
    - intros ?? (_ & _ & _ & ?). congruence. }
  rewrite (Reconcile_walks clock nodeList podList) by done. simpl.
  destruct (processNodes_Walk env r (Profiles r) podList
              (rangeOrder env (degradedNodesOf nodeList)) clock)
    as (visited & Hw & Hpre & Hall).
  destruct (processNodes env r (Profiles r) podList _ clock) as [[returned c] tr].
  unfold valueOf, clockOf, traceOf in *. simpl in *.
  exists (ListNodes :: degradedEvents nodeList ++ [ListPods]), visited, tr, returned.
  split_and!.
  - simpl. by rewrite <-app_assoc.
  - constructor; [done|]. apply Forall_app. split; [apply identifyDegraded_setup|].
    by repeat constructor.
  - done.
  - destruct returned; [done|by left].
  - intros nodeList' podList' (_ & Hl & _ & Hp).
    assert (nodeList' = nodeList) as -> by congruence.
    assert (podList' = podList) as -> by congruence.
    done.
Qed.

End Invocation.

(** ** The properties of an invocation *)

(** A list splits in one way only around an element that is neither like the
    elements before it nor like those after it. *)
Lemma split_around {A} (P Q : A → Prop) (l1 l2 l1' l2' : list A) (a b : A) :
  l1 ++ a :: l2 = l1' ++ b :: l2' →
  Forall P l1' → ¬ P a → Forall Q l2' → ¬ Q a →
  l1 = l1' ∧ a = b ∧ l2 = l2'.
Proof.
  intros Heq HP HPa HQ HQa. revert l1 Heq.
  induction HP as [|y l1' Hy HP IH]; intros l1 Heq.
  - destruct l1 as [|x l1]; simpl in Heq.
    + by injection Heq as -> ->.
    + injection Heq as -> <-. rewrite Forall_app, Forall_cons in HQ. tauto.
  - destruct l1 as [|x l1]; simpl in Heq.
    + injection Heq as -> _. done.
    + injection Heq as -> Heq. destruct (IH l1 Heq) as (-> & -> & ->). done.
Qed.

Section Properties.
Context `{rt : GoRuntime} (env : Env) (r : PodRebalancer).

Lemma Setup_uneventful (setup : list Action) :
  Forall Setup setup → Forall (Uneventful env) setup.
Proof. intros H. eapply Forall_impl; [exact H|]. by intros []. Qed.

Lemma Ending_aftermath (pod : Pod) (now : Z) (res : Result) (post : list Action) :
  Ending env r pod now res post → Forall Aftermath post.
Proof.
  intros [(err & _ & _ & _ & ->)|(_ & _ & ->)]; [by repeat constructor|].
  constructor; [done|]. unfold cooldownUpdate.
  destruct (ownerOf env pod) as [[owner|]|]; [|constructor..].
  destruct (patchObject env _); by repeat constructor.
Qed.


Lemma uneventful_no_patch (issued : list Action) :
  Forall (Uneventful env) issued → List.filter isPatch issued = [].
Proof.
  induction 1 as [|a issued Ha _ IH]; [done|]. simpl. rewrite IH. by destruct a.
Qed.

(** The shape of the trace of an invocation around an eviction request that
    the API server accepted or rate-limited. *)
Lemma Reconcile_eventful (clock : Z) (pre post : list Action) (pod : Pod) (g : Z) :
  traceOf (Reconcile env r clock) = pre ++ CreateEviction pod g :: post →
  ¬ Uneventful env (CreateEviction pod g) →
  g = 30
  ∧ Forall (Uneventful env) pre
  ∧ ∃ res skipped check,
      valueOf (Reconcile env r clock) = (res, None)
      ∧ clock ≤ check
      ∧ afterCooldownCheck env pod check ≤ clockOf (Reconcile env r clock)
      ∧ Executable env r (Profiles r) pod check
      ∧ Ending env r pod (afterCooldownCheck env pod check) res post
      ∧ Forall (λ p, ∃ now, clock ≤ now ≤ clockOf (Reconcile env r clock)
                            ∧ PassedOver env (Profiles r) p now) skipped
      ∧ ∀ nodeList podList,
          ReachesWalk env r nodeList podList →
          (skipped ++ [pod]) `prefix_of` candidatesOfInvocation env r nodeList podList.
Proof.
  intros Htrace Heventful.
  destruct (Reconcile_Walk env r clock)
    as (setup & visited & body & returned & Hsplit & Hsetup & Hw & Hvalue & Hvisited).
  apply Setup_uneventful in Hsetup.
  destruct returned as [[res err]|].
  - destruct (Walk_some _ _ _ _ _ _ _ _ _ Hw)
      as (-> & pre' & pod' & post' & skipped & check & -> & Hpre & -> & Hskip
          & ? & ? & ? & Hend).
    rewrite Hsplit, app_assoc in Htrace. symmetry in Htrace.
    destruct (split_around (Uneventful env) Aftermath _ _ _ _ _ _ Htrace)
      as (-> & [= -> ->] & ->).
    + by apply Forall_app.
    + done.
    + by eapply Ending_aftermath.
    + by intros [].
    + split_and!; [done|by apply Forall_app|].
      exists res, skipped, check. split_and!; try done.
      intros nodeList podList Hreach. by apply Hvisited.
  - destruct (Walk_none _ _ _ _ _ _ _ Hw) as [Hbody _].
    assert (Forall (Uneventful env) (pre ++ CreateEviction pod g :: post)) as Hall.
    { rewrite <-Htrace, Hsplit. by apply Forall_app. }
    rewrite Forall_app, Forall_cons in Hall. tauto.
Qed.

(** Every eviction request of an invocation is for a pod that was
    executable at some moment of the invocation. *)
Lemma Reconcile_eviction (clock : Z) (pod : Pod) (g : Z) :
  CreateEviction pod g ∈ traceOf (Reconcile env r clock) →
  g = 30
  ∧ ∃ now, clock ≤ now ≤ clockOf (Reconcile env r clock)
           ∧ Executable env r (Profiles r) pod now.
Proof.
  intros Hin.
  destruct (Reconcile_Walk env r clock)
    as (setup & visited & body & returned & Hsplit & Hsetup & Hw & _).
  rewrite Hsplit in Hin. apply elem_of_app in Hin as [Hin|Hin].
  - rewrite Forall_forall in Hsetup. by destruct (Hsetup _ Hin).
  - by eapply Walk_eviction.
Qed.

Lemma wrap64_small (z : Z) : - 2 ^ 63 ≤ z < 2 ^ 63 → wrap64 z = z.
Proof. intros Hz. unfold wrap64. rewrite Z.mod_small; lia. Qed.

End Properties.

(** C8: when the profile cache is empty, or the node list comes back without
    a degraded node, the invocation asks for the default recheck delay, and
    has issued nothing (empty cache) or only the listing of the nodes: no
    listing of pods or budgets, no lookup, no eviction, no patch, no event. *)
Theorem idle_invocation_takes_no_action `{rt : GoRuntime} (env : Env)
    (r : PodRebalancer) (clock : Z) :
  Profiles r = ∅
  ∨ (∃ nodeList,
        listNodes env = Ok nodeList
        ∧ ∀ node, node ∈ nodeList →
                  nodeAnnotations node !! NodeDegradedAnnotation = None) →
  valueOf (Reconcile env r clock) = ({| RequeueAfter := RecheckInterval r |}, None)
  ∧ clockOf (Reconcile env r clock) = clock
  ∧ traceOf (Reconcile env r clock)
    = (if decide (Profiles r = ∅) then [] else [ListNodes]).
Proof.
  intros Hidle. destruct (decide (Profiles r = ∅)) as [Hempty|Hprofiles].
  - by rewrite Reconcile_no_profiles.
  - destruct Hidle as [?|(nodeList & Hlist & Hnone)]; [done|].
    assert (identifyDegraded nodeList ∅ 0 = (∅, 0, [])) as Hid
      by by apply identifyDegraded_none.
    rewrite (Reconcile_no_degraded env r clock nodeList); try done.
    + unfold degradedEvents. by rewrite Hid.
    + unfold degradedNodesOf. by rewrite Hid.
Qed.

Lemma idle_invocation_takes_no_action_witness :
  traceOf (Reconcile (rt:=insertionRuntime) healthyCluster sampleRebalancer newYear)
  = [ListNodes]
  ∧ valueOf (Reconcile (rt:=insertionRuntime) healthyCluster sampleRebalancer newYear)
    = ({| RequeueAfter := 120 * Second |}, None).
Proof.
  destruct (idle_invocation_takes_no_action (rt:=insertionRuntime)
              healthyCluster sampleRebalancer newYear) as (Hvalue & _ & Htrace).
  - right. exists [healthyNode]. split; [reflexivity|].
    intros node Hin. apply list_elem_of_singleton in Hin. by subst.
  - split; [exact Htrace|exact Hvalue].
Defined.

(** C6: when the API server answers an eviction request with "too many
    requests", the only thing the invocation issues after that request is
    the event that reports it, no accepted eviction and no patch came
    before, and the invocation asks for a recheck after ten seconds. *)
Theorem rate_limit_ends_invocation `{rt : GoRuntime} (env : Env) (r : PodRebalancer)
    (clock : Z) (pre post : list Action) (pod : Pod) (g : Z) (err : error) :
  traceOf (Reconcile env r clock) = pre ++ CreateEviction pod g :: post →
  createEviction env pod = Some err →
  IsTooManyRequests err = true →
  post = [RecordEvent "Warning" "EvictionRateLimited" (podName pod)]
  ∧ Forall (Uneventful env) pre
  ∧ valueOf (Reconcile env r clock) = ({| RequeueAfter := 10 * Second |}, None).
Proof.
  intros Htrace Hev Hlim.
  destruct (Reconcile_eventful env r clock pre post pod g Htrace)
    as (_ & Hpre & res & skipped & check & Hvalue & _ & _ & _ & Hend & _).
  { intros (err' & ? & ?). congruence. }
  destruct Hend as [(_ & _ & _ & -> & ->)|(? & _)]; [done|congruence].
Qed.

Lemma rate_limit_ends_invocation_witness :
  traceOf (Reconcile (rt:=insertionRuntime) throttledCluster sampleRebalancer newYear)
  = (sampleSetup ++ [ListBudgets "default"])
    ++ CreateEviction podA 30 :: [RecordEvent "Warning" "EvictionRateLimited" "a"]
  ∧ valueOf (Reconcile (rt:=insertionRuntime) throttledCluster sampleRebalancer newYear)
    = ({| RequeueAfter := 10 * Second |}, None).
Proof.
  assert (traceOf (Reconcile (rt:=insertionRuntime) throttledCluster
                     sampleRebalancer newYear)
          = (sampleSetup ++ [ListBudgets "default"])
            ++ CreateEviction podA 30
               :: [RecordEvent "Warning" "EvictionRateLimited" "a"]) as Htrace
    by (vm_compute; reflexivity).
  split; [exact Htrace|].
  apply (rate_limit_ends_invocation (rt:=insertionRuntime) throttledCluster
           sampleRebalancer newYear _ _ podA 30
           (StatusError "TooManyRequests" 429) Htrace); reflexivity.
Defined.




(** C5: a pod whose owner resolves and carries a deadline that parses is
    skipped at every turn that starts before the deadline: the turn ends
    with [continue] after the owner lookups and the event that reports the
    skip, without listing budgets and without an eviction request; and an
    invocation that ends before the deadline has issued no eviction request
    for the pod. *)
Theorem cooldown_rejects_candidate `{rt : GoRuntime} (env : Env) (r : PodRebalancer)
    (pod : Pod) (owner : Object) (deadline : Z) :
  ownerOf env pod = Ok (Some owner) →
  deadlineOf owner = Some deadline →
  (∀ nodeName workloadProfiles evictedCount clock,
     clock < deadline →
     evaluatePod env r nodeName workloadProfiles pod evictedCount clock
     = (Continue evictedCount, clock + Z.max 0 (elapse env clock),
        ownerLookups env pod
        ++ [RecordEvent "Normal" "EvictionSkipped" (podName pod)]))
  ∧ (∀ clock g,
       clockOf (Reconcile env r clock) < deadline →
       CreateEviction pod g ∉ traceOf (Reconcile env r clock)).
Proof.
  intros Howner Hdeadline. split.
  - intros nodeName workloadProfiles evictedCount clock Hbefore.
    rewrite evaluatePod_run. unfold inCooldown, afterCooldownCheck.
    rewrite Howner, Hdeadline. by rewrite (proj2 (Z.ltb_lt _ _) Hbefore).
  - intros clock g Hend Hin.
    destruct (Reconcile_eviction env r clock pod g Hin)
      as (_ & now & Hnow & _ & Hcool & _).
    unfold inCooldown in Hcool. rewrite Howner, Hdeadline in Hcool.
    apply Z.ltb_ge in Hcool. lia.
Qed.

Lemma cooldown_rejects_candidate_witness :
  evaluatePod (rt:=insertionRuntime) coolingCluster sampleRebalancer "node-1"
    sampleProfiles podW 0 newYear
  = (Continue 0, newYear + Z.max 0 (elapse coolingCluster newYear),
     ownerLookups (rt:=insertionRuntime) coolingCluster podW
     ++ [RecordEvent "Normal" "EvictionSkipped" "web-1"]).
Proof.
  apply (proj1 (cooldown_rejects_candidate (rt:=insertionRuntime) coolingCluster
                  sampleRebalancer podW
                  (webDeployment (cooldownUntil "2026-01-01T01:00:00Z"))
                  (newYear + 3600 * Second) eq_refl eq_refl)).
  reflexivity.
Defined.

(** C10: when the owner resolves and its cooldown annotation is not a
    timestamp, the turn does not skip the pod and does not read the clock;
    it goes on to list the budgets; and when the budgets allow the pod, its
    workload type has a profile and the eviction is accepted, the turn ends
    with a patch of the owner whose cooldown annotation is the formatted new
    deadline, in place of the malformed value. *)
Theorem malformed_cooldown_fails_open `{rt : GoRuntime} (env : Env) (r : PodRebalancer)
    (pod : Pod) (owner : Object) (stamp : string) :
  ownerOf env pod = Ok (Some owner) →
  cooldownAnnotation owner = Some stamp →
  timeParse stamp = None →
  ∀ nodeName workloadProfiles evictedCount clock,
    inCooldown env pod clock = false
    ∧ afterCooldownCheck env pod clock = clock
    ∧ (∃ rest,
          traceOf (evaluatePod env r nodeName workloadProfiles pod evictedCount clock)
          = ownerLookups env pod ++ ListBudgets (podNamespace pod) :: rest)
    ∧ (budgetVerdict env pod = None →
       is_Some (workloadProfiles !! workloadTypeOf pod) →
       createEviction env pod = None →
       let patched := withCooldown owner (clock + wrap64 (RecheckInterval r * 2)) in
       evaluatePod env r nodeName workloadProfiles pod evictedCount clock
       = (Return {| RequeueAfter := 5 * Second |} None,
          clock + Z.max 0 (elapse env clock),
          ownerLookups env pod
          ++ [ListBudgets (podNamespace pod); CreateEviction pod 30;
              RecordEvent "Normal" "PodEvicted" (podName pod);
              PatchObject patched;
              match patchObject env patched with
              | Some _ => RecordEvent "Warning" "CooldownAnnotationFailed" (objName owner)
              | None => RecordEvent "Normal" "CooldownSet" (objName owner)
              end])
       ∧ cooldownAnnotation patched
         = Some (timeFormat (clock + wrap64 (RecheckInterval r * 2)))).
Proof.
  intros Howner Hstamp Hparse nodeName workloadProfiles evictedCount clock.
  assert (inCooldown env pod clock = false) as Hcool.
  { unfold inCooldown, deadlineOf. rewrite Howner, Hstamp. simpl. by rewrite Hparse. }
  assert (afterCooldownCheck env pod clock = clock) as Hclock.
  { unfold afterCooldownCheck, deadlineOf. rewrite Howner, Hstamp. simpl.
    by rewrite Hparse. }
  split_and!; [done|done|..].
  - rewrite evaluatePod_run, Hcool, Hclock. simpl.
    destruct (budgetVerdict env pod); [by eexists|].
    destruct (workloadProfiles !! workloadTypeOf pod); [|by eexists].
    destruct (createEviction env pod) as [err|].
    + destruct (IsTooManyRequests err); by eexists.
    + rewrite Howner. by eexists.
  - intros Hbudget [profile Hprofile] Hevict patched. split.
    + rewrite evaluatePod_run, Hcool, Hclock, Hbudget, Hprofile, Hevict, Howner.
      simpl. by rewrite setCooldown_run.
    + unfold patched, cooldownAnnotation, withCooldown. simpl.
      apply lookup_insert_eq.
Qed.

Lemma malformed_cooldown_fails_open_witness :
  inCooldown (rt:=insertionRuntime) garbledCluster podW newYear = false
  ∧ ∃ rest,
      traceOf (evaluatePod (rt:=insertionRuntime) garbledCluster sampleRebalancer
                 "node-1" sampleProfiles podW 0 newYear)
      = ownerLookups (rt:=insertionRuntime) garbledCluster podW
        ++ ListBudgets "default" :: rest.
Proof.
  destruct (malformed_cooldown_fails_open (rt:=insertionRuntime) garbledCluster
              sampleRebalancer podW (webDeployment (cooldownUntil "soon")) "soon"
              eq_refl eq_refl eq_refl "node-1" sampleProfiles 0 newYear)
    as (Hcool & _ & Hrest & _).
  split; [exact Hcool|exact Hrest].
Defined.

(** C4, as documented, fails.  When the owner of the evicted pod cannot be
    fetched, the eviction is accepted and no cooldown update is issued.  And
    with a recheck interval of zero the deadline written half a second after
    the previous one expired is the previous deadline again, not a later
    one. *)
Lemma cooldown_update_after_every_eviction_fails :
  (createEviction unreachableOwnerCluster podW = None
   ∧ List.filter isEviction
       (traceOf (Reconcile (rt:=insertionRuntime) unreachableOwnerCluster
                   sampleRebalancer newYear))
     = [CreateEviction podW 30]
   ∧ List.filter isPatch
       (traceOf (Reconcile (rt:=insertionRuntime) unreachableOwnerCluster
                   sampleRebalancer newYear))
     = [])
  ∧ (deadlineOf (rt:=insertionRuntime)
       (webDeployment (cooldownUntil "2026-01-01T00:00:00Z")) = Some newYear
     ∧ List.filter isPatch
         (traceOf (Reconcile (rt:=insertionRuntime) expiringCluster hastyRebalancer
                     (newYear + Second / 2)))
       = [PatchObject (webDeployment (cooldownUntil "2026-01-01T00:00:00Z"))]).
Proof. split_and!; vm_compute; reflexivity. Qed.

(** C4, amended.  After an accepted eviction the invocation returns with
    the short recheck delay, whatever becomes of the patch; the request for
    the pod is the only accepted one and is not repeated.  When the owner of
    the pod was resolved, the invocation issues exactly one patch, of that
    owner, with the cooldown annotation set to the formatted instant [now +
    2 * RecheckInterval] (in 64-bit arithmetic), where [now] is read after
    the eviction and [check] is the reading at which the cooldown check of
    the pod passed.  Provided that the clock has not stepped back between
    the two readings ([check ≤ now]), that twice the recheck interval is at
    least a second and fits in 64 bits, and that formatting and parsing
    lose less than a second, the new deadline is later than the deadline
    the owner carried.  When no owner was resolved, no patch is issued. *)
Theorem successful_eviction_sets_cooldown `{rt : GoRuntime} (env : Env)
    (r : PodRebalancer) (clock : Z) (pod : Pod) (g : Z) :
  CreateEviction pod g ∈ traceOf (Reconcile env r clock) →
  createEviction env pod = None →
  g = 30
  ∧ valueOf (Reconcile env r clock) = ({| RequeueAfter := 5 * Second |}, None)
  ∧ ∃ pre check now,
      clock ≤ now ≤ clockOf (Reconcile env r clock)
      ∧ inCooldown env pod check = false
      ∧ now = afterCooldownCheck env pod check
      ∧ traceOf (Reconcile env r clock)
        = pre ++ CreateEviction pod 30
                 :: RecordEvent "Normal" "PodEvicted" (podName pod)
                 :: cooldownUpdate env r pod now
      ∧ Forall (Uneventful env) pre
      ∧ List.filter isPatch (traceOf (Reconcile env r clock))
        = List.filter isPatch (cooldownUpdate env r pod now)
      ∧ match ownerOf env pod with
        | Ok (Some owner) =>
            let patched := withCooldown owner (now + wrap64 (RecheckInterval r * 2)) in
            List.filter isPatch (cooldownUpdate env r pod now) = [PatchObject patched]
            ∧ cooldownAnnotation patched
              = Some (timeFormat (now + wrap64 (RecheckInterval r * 2)))
            ∧ ∀ previous renewed,
                deadlineOf owner = Some previous →
                deadlineOf patched = Some renewed →
                check ≤ now →
                now + RecheckInterval r * 2 - Second < renewed →
                Second ≤ RecheckInterval r * 2 < 2 ^ 63 →
                previous < renewed
        | _ => cooldownUpdate env r pod now = []
        end.
Proof.
  intros Hin Hev.
  destruct (list_elem_of_split _ _ Hin) as (pre & post & Htrace).
  destruct (Reconcile_eventful env r clock pre post pod g Htrace)
    as (-> & Hpre & res & skipped & check & Hvalue & Hc1 & Hc2 & Hexec & Hend & _).
  { intros (err & ? & _). congruence. }
  destruct Hend as [(err & ? & _)|(_ & -> & ->)]; [congruence|].
  pose proof (afterCooldownCheck_ge env pod check) as Hc3.
  destruct Hexec as (_ & Hcool & _).
  split_and!; [done|done|].
  exists pre, check, (afterCooldownCheck env pod check).
  split_and!; [lia|lia|done|done|done|done|..].
  - rewrite Htrace, List.filter_app, (uneventful_no_patch env pre Hpre). done.
  - clear Hc3. unfold cooldownUpdate, inCooldown in *.
    destruct (ownerOf env pod) as [[owner|]|]; [|done..].
    split_and!.
    + simpl. by destruct (patchObject env _).
    + unfold cooldownAnnotation, withCooldown. simpl. apply lookup_insert_eq.
    + intros previous renewed Hprevious Hrenewed Hback Hloss Hinterval.
      rewrite Hprevious in Hcool. apply Z.ltb_ge in Hcool.
      unfold Second in *. lia.
Qed.

Lemma successful_eviction_sets_cooldown_witness :
  valueOf (Reconcile (rt:=insertionRuntime) cooledCluster sampleRebalancer newYear)
  = ({| RequeueAfter := 5 * Second |}, None)
  ∧ List.filter isPatch
      (traceOf (Reconcile (rt:=insertionRuntime) cooledCluster sampleRebalancer newYear))
    = [PatchObject (webDeployment (cooldownUntil "2026-01-01T00:04:00Z"))].
Proof.
  assert (CreateEviction podW 30
            ∈ traceOf (Reconcile (rt:=insertionRuntime) cooledCluster
                         sampleRebalancer newYear)) as Hin.
  { assert (traceOf (Reconcile (rt:=insertionRuntime) cooledCluster
                       sampleRebalancer newYear)
            = (sampleSetup ++ webLookups ++ [ListBudgets "default"])
              ++ CreateEviction podW 30
                 :: [RecordEvent "Normal" "PodEvicted" "web-1";
                     PatchObject (webDeployment (cooldownUntil "2026-01-01T00:04:00Z"));
                     RecordEvent "Normal" "CooldownSet" "web"]) as ->
      by (vm_compute; reflexivity).
    apply elem_of_app. right. apply elem_of_cons. by left. }
  destruct (successful_eviction_sets_cooldown (rt:=insertionRuntime) cooledCluster
              sampleRebalancer newYear podW 30 Hin eq_refl)
    as (_ & Hvalue & _).
  split; [exact Hvalue|]. vm_compute. reflexivity.
Defined.

(** * Further properties of the code *)

(** ** The profile cache *)

(** X1: the snapshot that [GetProfiles] builds entry by entry holds, under
    every key, what the cache holds, and is as large as the cache. *)
Theorem GetProfiles_snapshot (profiles : gmap string WorkloadProfile) (key : string) :
  GetProfiles profiles !! key = profiles !! key
  ∧ size (GetProfiles profiles) = size profiles.
Proof. by rewrite GetProfiles_copy. Qed.

(** X2: an add (or update) followed by a delete of the same profile, also
    from a tombstone, leaves no entry under its name; and when the cache had
    none before, the cache is back as it was. *)
Theorem add_then_delete_restores (wp : WorkloadProfile) (oldObj : InformerObject)
    (profiles added : gmap string WorkloadProfile) :
  AddFunc (ProfileObject wp) profiles = Some added
  ∨ UpdateFunc oldObj (ProfileObject wp) profiles = Some added →
  added !! wpName wp = Some wp
  ∧ DeleteFunc (ProfileObject wp) added !! wpName wp = None
  ∧ DeleteFunc (DeletedFinalStateUnknown (ProfileObject wp)) added
    = DeleteFunc (ProfileObject wp) added
  ∧ (profiles !! wpName wp = None → DeleteFunc (ProfileObject wp) added = profiles).
Proof.
  intros Hadd.
  assert (added = <[wpName wp := wp]> profiles) as ->
    by (destruct Hadd as [Hadd|Hadd]; simpl in Hadd; congruence).
  simpl. split_and!.
  - apply lookup_insert_eq.
  - apply lookup_delete_eq.
  - done.
  - intros Hfresh. rewrite delete_insert_eq. by apply delete_id.
Qed.

Lemma add_then_delete_restores_witness :
  DeleteFunc (ProfileObject (profileOf "io-intensive" 3))
    (<["io-intensive" := profileOf "io-intensive" 3]> sampleProfiles)
  = sampleProfiles.
Proof.
  apply (add_then_delete_restores (profileOf "io-intensive" 3) ForeignObject
           sampleProfiles
           (<["io-intensive" := profileOf "io-intensive" 3]> sampleProfiles)).
  - left. reflexivity.
  - reflexivity.
Defined.

(** X3: a handler touches at most the entry under the name of the profile
    it is handed: every other key keeps its value through an add, an update
    and a delete; a delete whose payload is neither a profile nor a
    tombstone around a profile changes nothing; and an add or update of
    anything but a profile does not return (the unchecked type assertion
    panics). *)
Theorem handlers_touch_one_key (obj oldObj : InformerObject)
    (profiles : gmap string WorkloadProfile) :
  (∀ stored key,
     AddFunc obj profiles = Some stored ∨ UpdateFunc oldObj obj profiles = Some stored →
     ∃ wp, obj = ProfileObject wp
           ∧ (key ≠ wpName wp → stored !! key = profiles !! key))
  ∧ (∀ key,
       DeleteFunc obj profiles !! key = profiles !! key
       ∨ ∃ wp, key = wpName wp
               ∧ (obj = ProfileObject wp
                  ∨ obj = DeletedFinalStateUnknown (ProfileObject wp)))
  ∧ ((∀ wp, obj ≠ ProfileObject wp) →
     AddFunc obj profiles = None
     ∧ UpdateFunc oldObj obj profiles = None
     ∧ ((∀ wp, obj ≠ DeletedFinalStateUnknown (ProfileObject wp)) →
        DeleteFunc obj profiles = profiles)).
Proof.
  split_and!.
  - intros stored key Hadd. destruct obj as [wp|inner|];
      try (destruct Hadd as [Hadd|Hadd]; discriminate Hadd).
    exists wp. split; [done|]. intros Hkey.
    assert (stored = <[wpName wp := wp]> profiles) as ->
      by (destruct Hadd as [Hadd|Hadd]; simpl in Hadd; congruence).
    by apply lookup_insert_ne.
  - intros key. destruct obj as [wp|[wp|inner|]|]; simpl; try by left.
    + destruct (decide (key = wpName wp)) as [->|Hne]; [right; eauto|left].
      by apply lookup_delete_ne.
    + destruct (decide (key = wpName wp)) as [->|Hne]; [right; eauto|left].
      by apply lookup_delete_ne.
  - intros Hforeign. destruct obj as [wp|inner|]; [by destruct (Hforeign wp)|..].
    + split_and!; [done..|]. intros Htomb.
      destruct inner as [wp| |]; [by destruct (Htomb wp)|done..].
    + by split_and!.
Qed.

Lemma handlers_touch_one_key_witness :
  AddFunc (DeletedFinalStateUnknown ForeignObject) sampleProfiles = None
  ∧ DeleteFunc (DeletedFinalStateUnknown ForeignObject) sampleProfiles = sampleProfiles.
Proof.
  destruct (handlers_touch_one_key (DeletedFinalStateUnknown ForeignObject)
              ForeignObject sampleProfiles) as (_ & _ & H).
  destruct H as (Hadd & _ & Hdel); [done|].
  split; [exact Hadd|]. apply Hdel. done.
Defined.

(** X4: how the handlers compose.  Of two adds (or updates) under one name
    the later one wins; an add after a delete of the same name is the same
    as the add alone; and handlers for profiles of different names commute. *)
Theorem handlers_compose (wp wp' : WorkloadProfile)
    (profiles : gmap string WorkloadProfile) :
  (wpName wp = wpName wp' →
   AddFunc (ProfileObject wp) profiles ≫= AddFunc (ProfileObject wp')
   = AddFunc (ProfileObject wp') profiles
   ∧ AddFunc (ProfileObject wp') (DeleteFunc (ProfileObject wp) profiles)
     = AddFunc (ProfileObject wp') profiles)
  ∧ (wpName wp ≠ wpName wp' →
     AddFunc (ProfileObject wp) profiles ≫= AddFunc (ProfileObject wp')
     = AddFunc (ProfileObject wp') profiles ≫= AddFunc (ProfileObject wp)
     ∧ DeleteFunc (ProfileObject wp') <$> AddFunc (ProfileObject wp) profiles
       = AddFunc (ProfileObject wp) (DeleteFunc (ProfileObject wp') profiles)
     ∧ DeleteFunc (ProfileObject wp) (DeleteFunc (ProfileObject wp') profiles)
       = DeleteFunc (ProfileObject wp') (DeleteFunc (ProfileObject wp) profiles)).
Proof.
  split.
  - intros Hname. simpl. rewrite Hname. split; f_equal.
    + apply insert_insert_eq.
    + apply insert_delete_eq.
  - intros Hname. simpl. split_and!.
    + f_equal. by apply insert_insert_ne.
    + f_equal. by rewrite delete_insert_ne.
    + apply delete_delete.
Qed.

Lemma handlers_compose_witness :
  AddFunc (ProfileObject (profileOf "batch-job" 5)) sampleProfiles
    ≫= AddFunc (ProfileObject (profileOf "batch-job" 9))
  = AddFunc (ProfileObject (profileOf "batch-job" 9)) sampleProfiles.
Proof.
  apply (proj1 (handlers_compose (profileOf "batch-job" 5) (profileOf "batch-job" 9)
                  sampleProfiles)).
  reflexivity.
Defined.

(** ** QoS classification and the comparator *)

Lemma existsb_Permutation {A} (f : A → bool) (l l' : list A) :
  l ≡ₚ l' → existsb f l = existsb f l'.
Proof.
  induction 1 as [|x l l' _ IH|x y l|l l' l'' _ IH1 _ IH2]; simpl.
  - done.
  - by rewrite IH.
  - by destruct (f x), (f y).
  - by rewrite IH1.
Qed.

Lemma forallb_Permutation {A} (f : A → bool) (l l' : list A) :
  l ≡ₚ l' → forallb f l = forallb f l'.
Proof.
  induction 1 as [|x l l' _ IH|x y l|l l' l'' _ IH1 _ IH2]; simpl.
  - done.
  - by rewrite IH.
  - by destruct (f x), (f y).
  - by rewrite IH1.
Qed.

(** X5: the classification returns one of the three classes, so that the
    rank of a pod is 3, 2 or 1 and never the 0 of the default branch of
    [qosClassToEvictionRank]; pods of equal rank are of the same class. *)
Theorem qos_rank_never_default (pod other : Pod) :
  (getPodQoSClass pod = PodQOSBestEffort
     ∧ qosClassToEvictionRank (getPodQoSClass pod) = 3
   ∨ getPodQoSClass pod = PodQOSBurstable
     ∧ qosClassToEvictionRank (getPodQoSClass pod) = 2
   ∨ getPodQoSClass pod = PodQOSGuaranteed
     ∧ qosClassToEvictionRank (getPodQoSClass pod) = 1)
  ∧ (qosClassToEvictionRank (getPodQoSClass pod)
     = qosClassToEvictionRank (getPodQoSClass other)
     ↔ getPodQoSClass pod = getPodQoSClass other).
Proof.
  split; [|apply rank_eq_class].
  destruct (getPodQoSClass_cases pod) as [-> | [-> | ->]]; auto.
Qed.

(** X6: the class of a pod does not depend on the order of its containers:
    the [break] at a container without requests and limits clears both
    flags, whatever was seen before. *)
Theorem qos_class_order_independent (pod pod' : Pod) (cs cs' : list Container) :
  podContainers pod = Some cs →
  podContainers pod' = Some cs' →
  cs ≡ₚ cs' →
  getPodQoSClass pod = getPodQoSClass pod'.
Proof.
  intros Hcs Hcs' Hperm.
  rewrite (qos_of_containers pod cs Hcs), (qos_of_containers pod' cs' Hcs').
  by rewrite (existsb_Permutation _ _ _ Hperm),
             (existsb_Permutation requestDiffersFromLimit _ _ Hperm),
             (forallb_Permutation _ _ _ Hperm).
Qed.

Lemma qos_class_order_independent_witness :
  getPodQoSClass burstablePod
  = getPodQoSClass
      (plainPod "bursty" "node-1" ∅ (Some [burstableContainer; guaranteedContainer])).
Proof.
  apply (qos_class_order_independent burstablePod _
           [guaranteedContainer; burstableContainer]
           [burstableContainer; guaranteedContainer]).
  - reflexivity.
  - reflexivity.
  - apply Permutation_swap.
Defined.

(** X7: a pod is Guaranteed exactly when its container slice is not nil and
    every container has a CPU request and a memory request that are not zero
    and equal the respective limits (a container that sets only limits does
    not qualify); it is Burstable exactly when no container is without both
    requests and limits and some container has a request that differs from
    its limit. *)
Theorem qos_guaranteed_and_burstable (pod : Pod) :
  (getPodQoSClass pod = PodQOSGuaranteed
   ↔ ∃ cs, podContainers pod = Some cs
           ∧ ∀ c, c ∈ cs →
                  Cpu (Requests c) = Cpu (Limits c)
                  ∧ Memory (Requests c) = Memory (Limits c)
                  ∧ Cpu (Requests c) ≠ 0
                  ∧ Memory (Requests c) ≠ 0)
  ∧ (getPodQoSClass pod = PodQOSBurstable
     ↔ ∃ cs, podContainers pod = Some cs
             ∧ (∀ c, c ∈ cs → Requests c ≠ None ∨ Limits c ≠ None)
             ∧ ∃ c, c ∈ cs
                    ∧ (Cpu (Requests c) ≠ Cpu (Limits c)
                       ∨ Memory (Requests c) ≠ Memory (Limits c))).
Proof.
  assert (∀ x y : Z, (Cmp x y =? 0) = true ↔ x = y) as Hcmp.
  { intros x y. unfold Cmp. destruct (Z.compare_spec x y); split; try done; lia. }
  assert (∀ c, requestDiffersFromLimit c = false
               ↔ Cpu (Requests c) = Cpu (Limits c)
                 ∧ Memory (Requests c) = Memory (Limits c)) as Hsame.
  { intros c. unfold requestDiffersFromLimit.
    rewrite orb_false_iff, !negb_false_iff, !Hcmp. done. }
  assert (∀ c, zeroRequest c = false
               ↔ Cpu (Requests c) ≠ 0 ∧ Memory (Requests c) ≠ 0) as Hzero.
  { intros c. unfold zeroRequest, IsZero. rewrite orb_false_iff, !Z.eqb_neq. done. }
  assert (∀ c, declaresNeither c = false ↔ Requests c ≠ None ∨ Limits c ≠ None)
    as Hneither.
  { intros c. unfold declaresNeither.
    destruct (Requests c), (Limits c); split; try done; auto.
    by intros [|]. }
  destruct (podContainers pod) as [cs|] eqn:Hcs; cycle 1.
  { unfold getPodQoSClass. rewrite Hcs.
    split; (split; [done|by intros (? & ? & _)]). }
  rewrite (qos_of_containers pod cs Hcs).
  destruct (existsb declaresNeither cs) eqn:Hn.
  { apply existsb_elem_of in Hn as (c & Hc & Hn).
    split; (split; [done|]).
    - intros (cs' & [= <-] & Hall). destruct (Hall c Hc) as (_ & _ & Hcpu & _).
      unfold declaresNeither, Cpu, resourceName in *.
      by destruct (Requests c), (Limits c).
    - intros (cs' & [= <-] & Hall & _). specialize (Hall c Hc).
      apply Hneither in Hall. congruence. }
  rewrite existsb_false_elem_of in Hn.
  destruct (existsb requestDiffersFromLimit cs) eqn:Hd.
  { apply existsb_elem_of in Hd as (c & Hc & Hd). split.
    - split; [done|]. intros (cs' & [= <-] & Hall).
      destruct (Hall c Hc) as (? & ? & _).
      assert (requestDiffersFromLimit c = false) by by apply Hsame. congruence.
    - split; [intros _|done]. exists cs. split_and!; [done| |].
      + intros c' Hc'. apply Hneither. by apply Hn.
      + exists c. split; [done|].
        destruct (decide (Cpu (Requests c) = Cpu (Limits c))) as [He|]; [|by left].
        right. intros Hm.
        assert (requestDiffersFromLimit c = false) by by apply Hsame. congruence. }
  rewrite existsb_false_elem_of in Hd.
  split.
  - destruct (forallb (λ c, negb (zeroRequest c)) cs) eqn:Hz.
    + rewrite forallb_negb_elem_of in Hz. split; [intros _|done].
      exists cs. split; [done|]. intros c Hc.
      destruct (proj1 (Hsame c) (Hd c Hc)), (proj1 (Hzero c) (Hz c Hc)). done.
    + split; [done|]. intros (cs' & [= <-] & Hall).
      assert (forallb (λ c, negb (zeroRequest c)) cs = true); [|congruence].
      apply forallb_negb_elem_of. intros c Hc. apply Hzero.
      by destruct (Hall c Hc) as (_ & _ & ? & ?).
  - split; [by destruct (forallb _ cs)|].
    intros (cs' & [= <-] & _ & c & Hc & Hdiff).
    destruct (proj1 (Hsame c) (Hd c Hc)). by destruct Hdiff.
Qed.

(** X8: the QoS class decides before the profiles: a pod of higher eviction
    rank (BestEffort over Burstable over Guaranteed) is less than a pod of
    lower rank whatever their profiles and priorities, and stands before it
    in every ranking that [sort.Slice] can return. *)
Theorem higher_qos_rank_sorts_first `{rt : GoRuntime}
    (workloadProfiles : gmap string WorkloadProfile) (a b : Pod) :
  SortSliceContract (@sortSlice rt) →
  qosClassToEvictionRank (getPodQoSClass b) < qosClassToEvictionRank (getPodQoSClass a) →
  podLess workloadProfiles a b = true
  ∧ podLess workloadProfiles b a = false
  ∧ ∀ pods i j,
      rankPods workloadProfiles pods !! i = Some a →
      rankPods workloadProfiles pods !! j = Some b →
      (i < j)%nat.
Proof.
  intros Hsort Hrank.
  assert (podLess workloadProfiles a b = true) as Hless.
  { apply podLess_keyLt. left. done. }
  split_and!; [done| |].
  - destruct (podLess_strict_weak_order workloadProfiles) as (Hirr & Htrans & _).
    destruct (podLess workloadProfiles b a) eqn:Hba; [|done].
    by rewrite <-(Hirr a), (Htrans a b a Hless Hba).
  - intros pods i j Hi Hj. by eapply rankPods_less_before.
Qed.

Lemma higher_qos_rank_sorts_first_witness :
  podLess sampleProfiles podB burstablePod = true
  ∧ rankPods (rt:=insertionRuntime) sampleProfiles [guaranteedPod; burstablePod; podB]
    = [podB; burstablePod; guaranteedPod].
Proof.
  split; [|vm_compute; reflexivity].
  apply (higher_qos_rank_sorts_first (rt:=insertionRuntime) sampleProfiles podB
           burstablePod insertionSort_contract).
  reflexivity.
Defined.

(** ** Owner resolution *)

Section Owners.
Context (env : Env).

Lemma replicaSetOwner_skip (pod : Pod) (rs : Object) (pre rest : list OwnerReference) :
  Forall (λ ref, controllingDeployment ref = false) pre →
  replicaSetOwner env pod rs (pre ++ rest) = replicaSetOwner env pod rs rest.
Proof.
  induction 1 as [|ref pre Href _ IH]; simpl; [done|].
  unfold controllingDeployment in Href. by rewrite Href.
Qed.

Lemma getPodOwnerFrom_skip (pod : Pod) (pre rest : list OwnerReference) :
  Forall (λ ref, recognisedController ref = false) pre →
  getPodOwnerFrom env pod (pre ++ rest) = getPodOwnerFrom env pod rest.
Proof.
  induction 1 as [|ref pre Href _ IH]; simpl; [done|].
  unfold recognisedController in Href.
  destruct (isController ref); [|done]. simpl in Href.
  repeat case_bool_decide; simpl in Href; try done.
Qed.

Lemma replicaSetOwner_facts (pod : Pod) (rs : Object) (refs : list OwnerReference)
    (clock : Z) :
  let out := replicaSetOwner env pod rs refs clock in
  (length (traceOf out) ≤ 1)%nat
  ∧ Forall (λ a, ∃ kind name, a = GetObject kind (podNamespace pod) name) (traceOf out)
  ∧ (∀ err, valueOf out = Err err →
            ∃ kind name msg cause,
              err = WrapError msg cause
              ∧ getObject env kind (podNamespace pod) name = Err cause
              ∧ last (traceOf out) = Some (GetObject kind (podNamespace pod) name))
  ∧ (∀ owner, valueOf out = Ok owner →
              owner = Some rs
              ∨ ∃ kind name deploy,
                  owner = Some deploy
                  ∧ getObject env kind (podNamespace pod) name = Ok deploy
                  ∧ GetObject kind (podNamespace pod) name ∈ traceOf out).
Proof.
  induction refs as [|ref refs IH]; simpl.
  - unfold valueOf, traceOf. simpl.
    split_and!; [lia|constructor|done|]. intros owner [= <-]. by left.
  - destruct (_ && _); [|exact IH].
    unfold mbind, M_bind, Get, issue, valueOf, traceOf. simpl.
    destruct (getObject env Deployment (podNamespace pod) (refName ref))
      as [deploy|cause] eqn:Hget; simpl.
    + split_and!; [lia|repeat constructor; eauto|done|].
      intros owner [= <-]. right. exists Deployment, (refName ref), deploy.
      split_and!; [done..|]. apply elem_of_cons. by left.
    + split_and!; [lia|repeat constructor; eauto| |done].
      intros err [= <-]. eauto 10.
Qed.

(** X9: [getPodOwner] answers "no owner" without an error exactly when no
    owner reference of the pod is a controller of kind ReplicaSet,
    StatefulSet or Deployment, and then it has asked the API server
    nothing. *)
Theorem no_recognised_controller_no_owner (pod : Pod) (clock : Z) :
  (valueOf (getPodOwner env pod clock) = Ok None
   ↔ Forall (λ ref, recognisedController ref = false) (podOwnerReferences pod))
  ∧ (valueOf (getPodOwner env pod clock) = Ok None →
     getPodOwner env pod clock = (Ok None, clock, [])).
Proof.
  unfold getPodOwner.
  assert (∀ rs refs, valueOf (replicaSetOwner env pod rs refs clock) ≠ Ok None) as Hrs.
  { intros rs refs Hnone.
    destruct (replicaSetOwner_facts pod rs refs clock) as (_ & _ & _ & Hok).
    destruct (Hok None Hnone) as [?|(? & ? & ? & ? & _)]; done. }
  induction (podOwnerReferences pod) as [|ref refs IH]; simpl.
  - split; [|done]. split; [constructor|done].
  - rewrite Forall_cons. unfold recognisedController at 1.
    destruct (isController ref); simpl; [|tauto].
    repeat case_bool_decide; simpl; try tauto.
    all: unfold mbind, M_bind, Get, issue; simpl.
    all: destruct (getObject env _ (podNamespace pod) (refName ref)) as [obj|cause];
      simpl; try (split; [split; [done|by intros []]|done]).
    all: specialize (Hrs obj (objOwnerReferences obj)).
    all: destruct (replicaSetOwner env pod obj (objOwnerReferences obj) clock)
           as [[value c] tr].
    all: unfold valueOf in *; simpl in *; split; [split; [done|by intros []]|done].
Qed.

(** X10: [getPodOwner] issues at most two requests, each a [Get] in the
    namespace of the pod; an error it returns wraps the error of the last
    request it issued; and an owner it returns is an object that one of its
    requests fetched. *)
Theorem owner_lookups_bounded (pod : Pod) (clock : Z) :
  (length (traceOf (getPodOwner env pod clock)) ≤ 2)%nat
  ∧ Forall (λ a, ∃ kind name, a = GetObject kind (podNamespace pod) name)
      (traceOf (getPodOwner env pod clock))
  ∧ (∀ err, valueOf (getPodOwner env pod clock) = Err err →
            ∃ kind name msg cause,
              err = WrapError msg cause
              ∧ getObject env kind (podNamespace pod) name = Err cause
              ∧ last (traceOf (getPodOwner env pod clock))
                = Some (GetObject kind (podNamespace pod) name))
  ∧ (∀ owner, valueOf (getPodOwner env pod clock) = Ok (Some owner) →
              ∃ kind name,
                getObject env kind (podNamespace pod) name = Ok owner
                ∧ GetObject kind (podNamespace pod) name
                  ∈ traceOf (getPodOwner env pod clock)).
Proof.
  unfold getPodOwner.
  induction (podOwnerReferences pod) as [|ref refs IH]; simpl.
  - split_and!; [unfold traceOf; simpl; lia|constructor|done|done].
  - destruct (isController ref); [|exact IH].
    repeat case_bool_decide; try exact IH.
    all: unfold mbind, M_bind, Get, issue; simpl.
    all: destruct (getObject env _ (podNamespace pod) (refName ref))
           as [obj|cause] eqn:Hget; simpl.
    all: try (split_and!;
              [unfold traceOf; simpl; lia|repeat constructor; eauto
              |intros err [= <-]; eauto 10|done]).
    all: try (split_and!;
              [unfold traceOf; simpl; lia|repeat constructor; eauto|done|];
              intros owner [= <-]; eexists _, _; split; [exact Hget|];
              apply elem_of_cons; by left).
    destruct (replicaSetOwner_facts pod obj (objOwnerReferences obj) clock)
      as (Hlen & Hall & Herr & Hok).
    destruct (replicaSetOwner env pod obj (objOwnerReferences obj) clock)
      as [[value c] tr].
    unfold valueOf, traceOf in *. simpl in *. split_and!.
    + lia.
    + constructor; eauto.
    + intros err Hv. destruct (Herr err Hv) as (kind & name & msg & cause & -> & ? & Hlast).
      exists kind, name, msg, cause. split_and!; [done..|].
      destruct tr; [done|]. exact Hlast.
    + intros owner Hv. destruct (Hok (Some owner) Hv)
        as [[= <-]|(kind & name & deploy & [= <-] & ? & ?)].
      * exists ReplicaSet, (refName ref). split; [done|]. apply elem_of_cons. by left.
      * exists kind, name. split; [done|]. apply elem_of_cons. by right.
Qed.

(** X11: resolution through a replica set.  When the first recognised
    controller among the owner references of the pod is a replica set that
    the API server returns, later references are not looked at, and the
    owner is the deployment named by the first controlling Deployment
    reference of the replica set, fetched with a second request (whose
    failure is the error returned), or the replica set itself when it has no
    such reference. *)
Theorem replica_set_resolves_to_deployment (pod : Pod) (clock : Z)
    (pre post : list OwnerReference) (ref : OwnerReference) (rs : Object) :
  podOwnerReferences pod = pre ++ ref :: post →
  Forall (λ ref, recognisedController ref = false) pre →
  isController ref = true →
  refKind ref = "ReplicaSet" →
  getObject env ReplicaSet (podNamespace pod) (refName ref) = Ok rs →
  (Forall (λ ref, controllingDeployment ref = false) (objOwnerReferences rs) →
   getPodOwner env pod clock
   = (Ok (Some rs), clock, [GetObject ReplicaSet (podNamespace pod) (refName ref)]))
  ∧ (∀ pre' post' dref,
       objOwnerReferences rs = pre' ++ dref :: post' →
       Forall (λ ref, controllingDeployment ref = false) pre' →
       controllingDeployment dref = true →
       getPodOwner env pod clock
       = (match getObject env Deployment (podNamespace pod) (refName dref) with
          | Ok deploy => Ok (Some deploy)
          | Err cause =>
              Err (WrapError ("failed to get Deployment " +:+ refName dref) cause)
          end,
          clock,
          [GetObject ReplicaSet (podNamespace pod) (refName ref);
           GetObject Deployment (podNamespace pod) (refName dref)])).
Proof.
  intros Hrefs Hpre Hctrl Hkind Hget. unfold getPodOwner.
  rewrite Hrefs, getPodOwnerFrom_skip by done. simpl.
  rewrite Hctrl, Hkind. simpl.
  unfold mbind, M_bind, Get, issue. simpl. rewrite Hget. split.
  - intros Hnone.
    rewrite <-(app_nil_r (objOwnerReferences rs)), replicaSetOwner_skip by done.
    done.
  - intros pre' post' dref Hrs Hpre' Hdref.
    rewrite Hrs, replicaSetOwner_skip by done. simpl.
    unfold controllingDeployment in Hdref. rewrite Hdref.
    unfold mbind, M_bind, Get, issue. simpl.
    by destruct (getObject env Deployment (podNamespace pod) (refName dref)).
Qed.

End Owners.

Lemma no_recognised_controller_no_owner_witness :
  getPodOwner unprofiledCluster podU newYear = (Ok None, newYear, []).
Proof.
  apply (proj2 (no_recognised_controller_no_owner unprofiledCluster podU newYear)).
  reflexivity.
Defined.

Lemma replica_set_resolves_to_deployment_witness :
  getPodOwner cooledCluster podW newYear
  = (Ok (Some (webDeployment (cooldownUntil "2025-12-31T23:00:00Z"))), newYear,
     [GetObject ReplicaSet "default" "web-rs"; GetObject Deployment "default" "web"]).
Proof.
  destruct (replica_set_resolves_to_deployment cooledCluster podW newYear [] []
              {| refKind := "ReplicaSet"; refName := "web-rs";
                 refController := Some true |} webReplicaSet) as [_ Hdeploy].
  - reflexivity.
  - constructor.
  - reflexivity.
  - reflexivity.
  - reflexivity.
  - apply (Hdeploy [] [] {| refKind := "Deployment"; refName := "web";
                            refController := Some true |}).
    + reflexivity.
    + constructor.
    + reflexivity.
Defined.

(** ** The disruption-budget check *)

Lemma checkBudgets_None (pod : Pod) (pdbs : list PodDisruptionBudget) :
  checkBudgets pod pdbs = None ↔ ∀ pdb, pdb ∈ pdbs → ¬ forbids pdb pod.
Proof.
  induction pdbs as [|pdb pdbs IH]; simpl.
  - split; [|done]. by intros _ pdb ?%elem_of_nil.
  - assert (∀ P : PodDisruptionBudget → Prop,
              (∀ x, x ∈ pdb :: pdbs → P x) ↔ P pdb ∧ ∀ x, x ∈ pdbs → P x) as Hcons.
    { intros P. split.
      - intros H. split; [apply H, elem_of_cons; by left|].
        intros x Hx. apply H, elem_of_cons. by right.
      - intros [H1 H2] x [->|Hx]%elem_of_cons; auto. }
    rewrite Hcons, <-IH. unfold forbids.
    destruct (pdbSelector pdb) as [selector|err] eqn:Hsel.
    + destruct (selector (podLabels pod)) eqn:Hmatch; simpl.
      * destruct (pdbDisruptionsAllowed pdb =? 0) eqn:Hzero.
        -- apply Z.eqb_eq in Hzero. split; [done|]. intros [Hno _]. destruct Hno. eauto.
        -- apply Z.eqb_neq in Hzero. split; [|tauto]. intros Hrest. split; [|done].
           intros (sel & [= <-] & _ & ?). done.
      * split; [|tauto]. intros Hrest. split; [|done].
        intros (sel & [= <-] & ? & _). congruence.
    + split; [|tauto]. intros Hrest. split; [|done]. by intros (sel & ? & _).
Qed.

Lemma checkBudgets_Some (pod : Pod) (pdbs : list PodDisruptionBudget) (err : error) :
  checkBudgets pod pdbs = Some err →
  ∃ pre pdb post,
    pdbs = pre ++ pdb :: post
    ∧ Forall (λ pdb, ¬ forbids pdb pod) pre
    ∧ forbids pdb pod
    ∧ err = ErrorString ("eviction would violate PodDisruptionBudget " +:+ pdbName pdb).
Proof.
  induction pdbs as [|pdb pdbs IH]; simpl; [done|].
  assert (checkBudgets pod pdbs = Some err → ¬ forbids pdb pod →
          ∃ pre pdb' post,
            pdb :: pdbs = pre ++ pdb' :: post
            ∧ Forall (λ pdb, ¬ forbids pdb pod) pre
            ∧ forbids pdb' pod
            ∧ err = ErrorString ("eviction would violate PodDisruptionBudget "
                                 +:+ pdbName pdb')) as Hrest.
  { intros Hsome Hno. destruct (IH Hsome) as (pre & pdb' & post & -> & ? & ? & ?).
    exists (pdb :: pre), pdb', post. split_and!; [done|by constructor|done..]. }
  unfold forbids in *.
  destruct (pdbSelector pdb) as [selector|e] eqn:Hsel.
  - destruct (selector (podLabels pod)) eqn:Hmatch; simpl.
    + destruct (pdbDisruptionsAllowed pdb =? 0) eqn:Hzero.
      * apply Z.eqb_eq in Hzero. intros [= <-]. exists [], pdb, pdbs.
        split_and!; [done|constructor| |done]. rewrite Hsel. eauto.
      * apply Z.eqb_neq in Hzero. intros Hsome. apply Hrest; [done|].
        intros (sel & _ & _ & ?). done.
    + intros Hsome. apply Hrest; [done|]. intros (sel & [= <-] & ? & _). congruence.
  - intros Hsome. apply Hrest; [done|]. by intros (sel & ? & _).
Qed.

Lemma budgetVerdict_None `{rt : GoRuntime} (env : Env) (pod : Pod) :
  budgetVerdict env pod = None
  ↔ ∃ pdbs, listBudgets env (podNamespace pod) = Ok pdbs
            ∧ ∀ pdb, pdb ∈ pdbs → ¬ forbids pdb pod.
Proof.
  unfold budgetVerdict, checkPDB, mbind, M_bind, valueOf. simpl.
  destruct (listBudgets env (podNamespace pod)) as [pdbs|err]; simpl.
  - rewrite checkBudgets_None. split; [eauto|]. by intros (? & [= <-] & ?).
  - split; [done|]. by intros (? & ? & _).
Qed.

(** X12: [checkPDB] issues one listing of the budgets of the namespace of
    the pod.  It returns no error exactly when the listing succeeds and no
    listed budget forbids the pod, where a budget forbids the pod when its
    selector converts, matches the labels of the pod, and its
    [DisruptionsAllowed] is 0 (a budget whose selector does not convert
    never forbids).  After a successful listing an error names the first
    forbidding budget of the list; a failed listing is an error that wraps
    the failure. *)
Theorem budget_check_verdict (env : Env) (pod : Pod) (clock : Z) :
  clockOf (checkPDB env pod clock) = clock
  ∧ traceOf (checkPDB env pod clock) = [ListBudgets (podNamespace pod)]
  ∧ (valueOf (checkPDB env pod clock) = None
     ↔ ∃ pdbs, listBudgets env (podNamespace pod) = Ok pdbs
               ∧ ∀ pdb, pdb ∈ pdbs → ¬ forbids pdb pod)
  ∧ (∀ pdbs err,
       listBudgets env (podNamespace pod) = Ok pdbs →
       valueOf (checkPDB env pod clock) = Some err →
       ∃ pre pdb post,
         pdbs = pre ++ pdb :: post
         ∧ Forall (λ pdb, ¬ forbids pdb pod) pre
         ∧ forbids pdb pod
         ∧ err = ErrorString ("eviction would violate PodDisruptionBudget "
                              +:+ pdbName pdb))
  ∧ (∀ cause,
       listBudgets env (podNamespace pod) = Err cause →
       ∃ msg, valueOf (checkPDB env pod clock) = Some (WrapError msg cause)).
Proof.
  unfold checkPDB, mbind, M_bind, valueOf, clockOf, traceOf. simpl.
  destruct (listBudgets env (podNamespace pod)) as [pdbs|err]; simpl.
  - split_and!; [done|done| | |done].
    + rewrite checkBudgets_None. split; [eauto|]. by intros (? & [= <-] & ?).
    + intros pdbs' e [= <-]. apply checkBudgets_Some.
  - split_and!; [done|done| |done|].
    + split; [done|]. by intros (? & ? & _).
    + intros cause [= <-]. eauto.
Qed.

Lemma budget_check_verdict_witness :
  ∃ pre pdb post,
    [brokenBudget; dbBudget 1; dbBudget 0] = pre ++ pdb :: post
    ∧ Forall (λ pdb, ¬ forbids pdb podD) pre
    ∧ forbids pdb podD
    ∧ ErrorString "eviction would violate PodDisruptionBudget db-pdb"
      = ErrorString ("eviction would violate PodDisruptionBudget " +:+ pdbName pdb).
Proof.
  destruct (budget_check_verdict
              (budgetedCluster [brokenBudget; dbBudget 1; dbBudget 0]) podD newYear)
    as (_ & _ & _ & Hsome & _).
  apply (Hsome [brokenBudget; dbBudget 1; dbBudget 0]); reflexivity.
Defined.

(** X13: an invocation issues an eviction request for a pod only if the
    listing of the budgets of its namespace succeeds and no listed budget
    forbids the pod: a pod selected by a budget with no disruptions allowed
    is never evicted, and neither is a pod whose budgets cannot be listed. *)
Theorem forbidden_pod_never_evicted `{rt : GoRuntime} (env : Env) (r : PodRebalancer)
    (clock : Z) (pod : Pod) (g : Z) :
  CreateEviction pod g ∈ traceOf (Reconcile env r clock) →
  ∃ pdbs,
    listBudgets env (podNamespace pod) = Ok pdbs
    ∧ ∀ pdb selector,
        pdb ∈ pdbs →
        pdbSelector pdb = Ok selector →
        selector (podLabels pod) = true →
        pdbDisruptionsAllowed pdb ≠ 0.
Proof.
  intros Hin.
  destruct (Reconcile_eviction env r clock pod g Hin)
    as (_ & now & _ & _ & _ & Hbudget & _).
  apply budgetVerdict_None in Hbudget as (pdbs & Hlist & Hallow).
  exists pdbs. split; [done|]. intros pdb selector Hpdb Hsel Hmatch Hzero.
  apply (Hallow pdb Hpdb). unfold forbids. eauto.
Qed.

Lemma forbidden_pod_never_evicted_witness :
  List.filter isEviction
    (traceOf (Reconcile (rt:=insertionRuntime) (budgetedCluster [dbBudget 0])
                sampleRebalancer newYear))
  = [CreateEviction podB 30]
  ∧ ∃ pdbs,
      listBudgets (budgetedCluster [dbBudget 0]) (podNamespace podB) = Ok pdbs
      ∧ ∀ pdb selector,
          pdb ∈ pdbs →
          pdbSelector pdb = Ok selector →
          selector (podLabels podB) = true →
          pdbDisruptionsAllowed pdb ≠ 0.
Proof.
  split; [vm_compute; reflexivity|].
  apply (forbidden_pod_never_evicted (rt:=insertionRuntime)
           (budgetedCluster [dbBudget 0]) sampleRebalancer newYear podB 30).
  assert (traceOf (Reconcile (rt:=insertionRuntime) (budgetedCluster [dbBudget 0])
                     sampleRebalancer newYear)
          = (sampleSetup
             ++ [ListBudgets "default"; RecordEvent "Warning" "PDBViolation" "d";
                 ListBudgets "default"])
            ++ CreateEviction podB 30 :: [RecordEvent "Normal" "PodEvicted" "b"]) as ->
    by (vm_compute; reflexivity).
  apply elem_of_app. right. apply elem_of_cons. by left.
Defined.

(** ** Outcomes of an invocation *)

Section Outcomes.
Context `{rt : GoRuntime} (env : Env) (r : PodRebalancer).

(** The five ways an invocation runs. *)
Lemma Reconcile_cases (clock : Z) :
  (Profiles r = ∅
   ∧ Reconcile env r clock = ({| RequeueAfter := RecheckInterval r |}, None, clock, []))
  ∨ (∃ err,
        listNodes env = Err err
        ∧ Reconcile env r clock = ({| RequeueAfter := 0 |}, Some err, clock, [ListNodes]))
  ∨ (∃ nodeList,
        listNodes env = Ok nodeList
        ∧ degradedNodesOf nodeList = ∅
        ∧ Reconcile env r clock
          = ({| RequeueAfter := RecheckInterval r |}, None, clock,
             ListNodes :: degradedEvents nodeList))
  ∨ (∃ nodeList err,
        listNodes env = Ok nodeList
        ∧ listPods env = Err err
        ∧ Reconcile env r clock
          = ({| RequeueAfter := 0 |}, Some err, clock,
             ListNodes :: degradedEvents nodeList ++ [ListPods]))
  ∨ (∃ nodeList podList,
        ReachesWalk env r nodeList podList
        ∧ Reconcile env r clock
          = (default ({| RequeueAfter := RecheckInterval r |}, None)
               (valueOf (processNodes env r (Profiles r) podList
                           (rangeOrder env (degradedNodesOf nodeList)) clock)),
             clockOf (processNodes env r (Profiles r) podList
                        (rangeOrder env (degradedNodesOf nodeList)) clock),
             ListNodes :: degradedEvents nodeList
             ++ ListPods :: traceOf (processNodes env r (Profiles r) podList
                                       (rangeOrder env (degradedNodesOf nodeList))
                                       clock))).
Proof.
  destruct (decide (Profiles r = ∅)) as [Hempty|Hprofiles].
  { left. split; [done|]. by apply Reconcile_no_profiles. }
  destruct (listNodes env) as [nodeList|err] eqn:Hlist.
  2: { right. left. exists err. split; [done|]. by apply Reconcile_list_nodes_fails. }
  destruct (decide (degradedNodesOf nodeList = ∅)) as [Hnone|Hsome].
  { do 2 right. left. exists nodeList. split_and!; [done..|].
    by apply Reconcile_no_degraded. }
  destruct (listPods env) as [podList|err] eqn:Hpods.
  2: { do 3 right. left. exists nodeList, err. split_and!; [done..|].
       by apply Reconcile_list_pods_fails. }
  do 4 right. exists nodeList, podList.
  assert (ReachesWalk env r nodeList podList) as Hreach by done.
  split; [done|]. by apply Reconcile_walks.
Qed.

Lemma degradedEvents_setup (nodeList : list Node) :
  Forall Setup (degradedEvents nodeList).
Proof. apply identifyDegraded_setup. Qed.

Lemma uneventful_not_accepted (issued : list Action) :
  Forall (Uneventful env) issued → List.filter (acceptedEviction env) issued = [].
Proof.
  induction 1 as [|a issued Ha _ IH]; [done|]. simpl. rewrite IH.
  destruct a; try done. simpl in *. destruct Ha as (err & -> & _). done.
Qed.

Lemma aftermath_not_accepted (issued : list Action) :
  Forall Aftermath issued → List.filter (acceptedEviction env) issued = [].
Proof.
  induction 1 as [|a issued Ha _ IH]; [done|]. simpl. rewrite IH. by destruct a.
Qed.

(** X14: the cap.  With a cap of zero or less an invocation issues no
    eviction request at all; with any cap the API server accepts at most
    one eviction per invocation. *)
Theorem evictions_capped (clock : Z) :
  (MaxEvictionsPerNodePerCycle r ≤ 0 →
   List.filter isEviction (traceOf (Reconcile env r clock)) = [])
  ∧ (length (List.filter (acceptedEviction env) (traceOf (Reconcile env r clock))) ≤ 1)%nat.
Proof.
  split.
  - intros Hcap.
    assert (Forall (λ a, isEviction a = false) (traceOf (Reconcile env r clock))) as Hall.
    { apply Forall_forall. intros a Hin. destruct a as [| | | |pod g| |]; try done.
      destruct (Reconcile_eviction env r clock pod g Hin) as (_ & now & _ & Hpos & _).
      lia. }
    induction Hall as [|a issued Ha _ IH]; [done|]. simpl. by rewrite Ha.
  - destruct (Reconcile_Walk env r clock)
      as (setup & visited & body & returned & -> & Hsetup & Hw & _).
    apply Setup_uneventful with (env := env) in Hsetup.
    rewrite List.filter_app, (uneventful_not_accepted _ Hsetup). simpl.
    destruct returned as [[res err]|].
    + destruct (Walk_some _ _ _ _ _ _ _ _ _ Hw)
        as (_ & pre & pod & post & skipped & check & -> & Hpre & _ & _ & _ & _ & _ & Hend).
      apply Ending_aftermath in Hend.
      rewrite List.filter_app, (uneventful_not_accepted _ Hpre). simpl.
      rewrite (aftermath_not_accepted _ Hend).
      destruct (createEviction env pod); simpl; lia.
    + destruct (Walk_none _ _ _ _ _ _ _ Hw) as [Hbody _].
      rewrite (uneventful_not_accepted _ Hbody). simpl. lia.
Qed.

(** X15: how an invocation can end.  Either it asks for the configured
    recheck interval, having issued no patch and no eviction request that
    was accepted or rate-limited; or it returns the error of a failed
    listing of nodes or pods, with an empty result, having issued only
    listings and node events; or it asks for five seconds after an accepted
    eviction; or for ten seconds after a rate-limited one.  Failures of
    owner lookups, budget listings, evictions and patches never surface as
    an error of the invocation. *)
Theorem invocation_outcomes (clock : Z) :
  (valueOf (Reconcile env r clock) = ({| RequeueAfter := RecheckInterval r |}, None)
   ∧ Forall (Uneventful env) (traceOf (Reconcile env r clock)))
  ∨ (∃ err,
        valueOf (Reconcile env r clock) = ({| RequeueAfter := 0 |}, Some err)
        ∧ (listNodes env = Err err ∨ listPods env = Err err)
        ∧ Forall Setup (traceOf (Reconcile env r clock)))
  ∨ (valueOf (Reconcile env r clock) = ({| RequeueAfter := 5 * Second |}, None)
     ∧ ∃ pod, CreateEviction pod 30 ∈ traceOf (Reconcile env r clock)
              ∧ createEviction env pod = None)
  ∨ (valueOf (Reconcile env r clock) = ({| RequeueAfter := 10 * Second |}, None)
     ∧ ∃ pod err, CreateEviction pod 30 ∈ traceOf (Reconcile env r clock)
                  ∧ createEviction env pod = Some err
                  ∧ IsTooManyRequests err = true).
Proof.
  destruct (Reconcile_cases clock)
    as [(_ & ->)|[(err & Hn & ->)|[(nodeList & _ & _ & ->)
       |[(nodeList & err & _ & Hp & ->)|(nodeList & podList & Hreach & ->)]]]].
  - left. split; [done|constructor].
  - right. left. exists err. split_and!; [done|by left|by repeat constructor].
  - left. split; [done|]. constructor; [done|].
    apply Setup_uneventful, degradedEvents_setup.
  - right. left. exists err. split_and!; [done|by right|].
    constructor; [done|]. apply Forall_app. split; [apply degradedEvents_setup|].
    by repeat constructor.
  - destruct (processNodes_Walk env r (Profiles r) podList
                (rangeOrder env (degradedNodesOf nodeList)) clock)
      as (visited & Hw & _).
    destruct (processNodes env r (Profiles r) podList _ clock)
      as [[[[res err]|] c] tr]; unfold valueOf, clockOf, traceOf in *; simpl in *.
    + destruct (Walk_some _ _ _ _ _ _ _ _ _ Hw)
        as (-> & pre & pod & post & skipped & check & -> & _ & _ & _ & _ & _ & _ & Hend).
      assert (CreateEviction pod 30
                ∈ ListNodes :: degradedEvents nodeList
                  ++ ListPods :: pre ++ CreateEviction pod 30 :: post) as Hin.
      { apply elem_of_cons. right. apply elem_of_app. right.
        apply elem_of_cons. right. apply elem_of_app. right.
        apply elem_of_cons. by left. }
      destruct Hend as [(e & ? & ? & -> & _)|(? & -> & _)].
      * do 3 right. split; [done|]. eauto.
      * do 2 right. left. split; [done|]. eauto.
    + left. split; [done|]. constructor; [done|]. apply Forall_app. split.
      * apply Setup_uneventful, degradedEvents_setup.
      * constructor; [done|]. by destruct (Walk_none _ _ _ _ _ _ _ Hw).
Qed.

End Outcomes.

Lemma evictions_capped_witness :
  List.filter isEviction
    (traceOf (Reconcile (rt:=insertionRuntime) refusingCluster cappedRebalancer newYear))
  = [].
Proof.
  apply (proj1 (evictions_capped (rt:=insertionRuntime) refusingCluster
                  cappedRebalancer newYear)).
  vm_compute. discriminate.
Defined.

(** ** Which nodes and pods an invocation touches *)

Lemma identifyDegraded_char (nodes : list Node) (degradedNodes : gmap string Node) :
  traceOf (identifyDegraded nodes degradedNodes 0)
  = (λ node, RecordEvent "Normal" "NodeDegraded" (nodeName node))
      <$> List.filter isDegraded nodes
  ∧ ∀ name node,
      valueOf (identifyDegraded nodes degradedNodes 0) !! name = Some node →
      degradedNodes !! name = Some node
      ∨ (node ∈ nodes ∧ isDegraded node = true ∧ nodeName node = name).
Proof.
  revert degradedNodes. induction nodes as [|n nodes IH]; intros m; simpl.
  - split; [done|]. intros name node Hm. by left.
  - unfold isDegraded at 1.
    destruct (nodeAnnotations n !! NodeDegradedAnnotation) eqn:Hann.
    + destruct (IH (<[nodeName n := n]> m)) as [Htr Hval].
      unfold mbind, M_bind, issue. simpl.
      destruct (identifyDegraded nodes _ 0) as [[value c] tr].
      unfold valueOf, traceOf in *. simpl in *. split; [by rewrite Htr|].
      intros name node Hm. destruct (Hval name node Hm) as [Hins|(? & ? & ?)].
      * destruct (decide (nodeName n = name)) as [<-|Hne].
        -- rewrite lookup_insert_eq in Hins. injection Hins as <-. right.
           split_and!; [apply elem_of_cons; by left| |done].
           unfold isDegraded. by rewrite Hann.
        -- rewrite lookup_insert_ne in Hins by done. by left.
      * right. split_and!; [apply elem_of_cons; by right|done..].
    + destruct (IH m) as [Htr Hval]. split; [done|].
      intros name node Hm. destruct (Hval name node Hm) as [?|(? & ? & ?)]; [by left|].
      right. split_and!; [apply elem_of_cons; by right|done..].
Qed.

(** X16: collecting the degraded nodes.  [Reconcile] records one
    NodeDegraded event for each node of the list that carries the
    annotation, in the order of the list, whatever the value of the
    annotation; and every node in the map it collects is a node of the list
    that carries the annotation, stored under its own name. *)
Theorem degraded_nodes_collected (nodeList : list Node) (clock : Z) :
  clockOf (identifyDegraded nodeList ∅ clock) = clock
  ∧ traceOf (identifyDegraded nodeList ∅ clock)
    = (λ node, RecordEvent "Normal" "NodeDegraded" (nodeName node))
        <$> List.filter isDegraded nodeList
  ∧ ∀ name node,
      valueOf (identifyDegraded nodeList ∅ clock) !! name = Some node →
      node ∈ nodeList
      ∧ is_Some (nodeAnnotations node !! NodeDegradedAnnotation)
      ∧ nodeName node = name.
Proof.
  rewrite (Timeless_identifyDegraded nodeList ∅ clock).
  destruct (identifyDegraded_char nodeList ∅) as [Htr Hval].
  unfold valueOf, clockOf, traceOf in *. simpl.
  split_and!; [done|done|].
  intros name node Hm. destruct (Hval name node Hm) as [?|(? & Hdeg & ?)]; [done|].
  split_and!; [done| |done]. unfold isDegraded in Hdeg.
  by destruct (nodeAnnotations node !! NodeDegradedAnnotation).
Qed.

Section Touched.
Context `{rt : GoRuntime} (env : Env) (r : PodRebalancer).

Lemma Walk_eviction_visited workloadProfiles clock visited issued clock' returned
    (p : Pod) (g : Z) :
  Walk env r workloadProfiles clock visited issued clock' returned →
  CreateEviction p g ∈ issued →
  p ∈ visited.
Proof.
  induction 1 as [|clock nodeName pod clock1 issued visited rest clock2 returned
                   Hcap Hev Hw IH
                  |clock nodeName pod clock1 issued res err Hcap Hev].
  - by intros ?%elem_of_nil.
  - intros [Hin|Hin]%elem_of_app.
    + pose proof (evaluatePod_eviction env r workloadProfiles nodeName pod 0 clock p g)
        as Hturn.
      rewrite Hev in Hturn. destruct (Hturn Hin) as (-> & _).
      apply elem_of_cons. by left.
    + apply elem_of_cons. right. by apply IH.
  - intros Hin.
    pose proof (evaluatePod_eviction env r workloadProfiles nodeName pod 0 clock p g)
      as Hturn.
    rewrite Hev in Hturn. destruct (Hturn Hin) as (-> & _).
    apply elem_of_cons. by left.
Qed.

(** X17: an invocation evicts only from degraded nodes.  Provided that
    [sort.Slice] returns a permutation and that [range] yields keys of the
    map, every eviction request is for a pod of the listed pods whose phase
    is Running or Pending and whose node is a listed node that carries the
    degraded annotation. *)
Theorem evictions_only_from_degraded_nodes (clock : Z) (pod : Pod) (g : Z) :
  SortSliceContract (@sortSlice rt) →
  (∀ degradedNodes name,
     name ∈ rangeOrder env degradedNodes → is_Some (degradedNodes !! name)) →
  CreateEviction pod g ∈ traceOf (Reconcile env r clock) →
  ∃ nodeList podList node,
    listNodes env = Ok nodeList
    ∧ listPods env = Ok podList
    ∧ pod ∈ podList
    ∧ (podPhase pod = PodRunning ∨ podPhase pod = PodPending)
    ∧ node ∈ nodeList
    ∧ nodeName node = podNodeName pod
    ∧ is_Some (nodeAnnotations node !! NodeDegradedAnnotation).
Proof.
  intros Hsort Hrange Hin.
  assert (∀ issued, Forall Setup issued → CreateEviction pod g ∉ issued) as Hsetup.
  { intros issued Hall Hin'. rewrite Forall_forall in Hall. by destruct (Hall _ Hin'). }
  destruct (Reconcile_cases env r clock)
    as [(_ & Heq)|[(err & _ & Heq)|[(nodeList & _ & _ & Heq)
       |[(nodeList & err & _ & _ & Heq)|(nodeList & podList & Hreach & Heq)]]]];
    rewrite Heq in Hin; unfold traceOf in Hin; simpl in Hin.
  - by apply elem_of_nil in Hin.
  - destruct (Hsetup [ListNodes]); [by repeat constructor|done].
  - destruct (Hsetup (ListNodes :: degradedEvents nodeList)); [|done].
    constructor; [done|apply degradedEvents_setup].
  - destruct (Hsetup (ListNodes :: degradedEvents nodeList ++ [ListPods])); [|done].
    constructor; [done|]. apply Forall_app. split; [apply degradedEvents_setup|].
    by repeat constructor.
  - apply elem_of_cons in Hin as [?|Hin]; [done|].
    apply elem_of_app in Hin as [Hin|Hin].
    { by destruct (Hsetup _ (degradedEvents_setup nodeList)). }
    apply elem_of_cons in Hin as [?|Hin]; [done|].
    destruct (processNodes_Walk env r (Profiles r) podList
                (rangeOrder env (degradedNodesOf nodeList)) clock)
      as (visited & Hw & Hprefix & _).
    pose proof (Walk_eviction_visited _ _ _ _ _ _ _ _ Hw Hin) as Hvisited.
    destruct Hprefix as [rest Hcand].
    assert (pod ∈ candidates r (Profiles r) podList
                    (rangeOrder env (degradedNodesOf nodeList))) as Hpod.
    { rewrite Hcand. apply elem_of_app. by left. }
    unfold candidates in Hpod.
    destruct (MaxEvictionsPerNodePerCycle r <=? 0); [by apply elem_of_nil in Hpod|].
    apply list_elem_of_In, in_concat in Hpod as (group & Hgroup & Hpod).
    apply list_elem_of_In in Hgroup, Hpod.
    apply list_elem_of_fmap in Hgroup as (name & -> & Hname).
    unfold candidatesOn in Hpod. case_bool_decide; [by apply elem_of_nil in Hpod|].
    rewrite (rankPods_perm Hsort (Profiles r)) in Hpod.
    unfold podsOn in Hpod. apply list_elem_of_In, filter_In in Hpod as [Hlisted Hsel].
    apply list_elem_of_In in Hlisted.
    apply andb_true_iff in Hsel as [Hon Hphase].
    apply bool_decide_eq_true in Hon. apply orb_true_iff in Hphase.
    rewrite !bool_decide_eq_true in Hphase.
    destruct (Hrange _ _ Hname) as [node Hnode].
    destruct (proj2 (proj2 (degraded_nodes_collected nodeList 0)) name node Hnode)
      as (? & ? & ?).
    destruct Hreach as (_ & ? & _ & ?).
    exists nodeList, podList, node. split_and!; try done. congruence.
Qed.

End Touched.

Lemma evictions_only_from_degraded_nodes_witness :
  ∃ nodeList podList node,
    listNodes refusingCluster = Ok nodeList
    ∧ listPods refusingCluster = Ok podList
    ∧ podB ∈ podList
    ∧ (podPhase podB = PodRunning ∨ podPhase podB = PodPending)
    ∧ node ∈ nodeList
    ∧ nodeName node = podNodeName podB
    ∧ is_Some (nodeAnnotations node !! NodeDegradedAnnotation).
Proof.
  apply (evictions_only_from_degraded_nodes (rt:=insertionRuntime) refusingCluster
           sampleRebalancer newYear podB 30 insertionSort_contract).
  - intros degradedNodes name Hin. simpl in Hin.
    apply list_elem_of_fmap in Hin as ([key node] & -> & Hin).
    apply elem_of_map_to_list in Hin. simpl. eauto.
  - assert (traceOf (Reconcile (rt:=insertionRuntime) refusingCluster
                       sampleRebalancer newYear)
            = (sampleSetup
               ++ [ListBudgets "default"; CreateEviction podA 30;
                   RecordEvent "Warning" "EvictionFailed" "a"; ListBudgets "default"])
              ++ CreateEviction podB 30 :: [RecordEvent "Normal" "PodEvicted" "b"])
      as -> by (vm_compute; reflexivity).
    apply elem_of_app. right. apply elem_of_cons. by left.
Defined.

(** ** The cooldown *)

Section Cooldown.
Context `{rt : GoRuntime} (env : Env) (r : PodRebalancer).

Lemma inCooldown_true (pod : Pod) (now : Z) :
  inCooldown env pod now = true
  ↔ ∃ owner annotations stamp deadline,
      ownerOf env pod = Ok (Some owner)
      ∧ objAnnotations owner = Some annotations
      ∧ annotations !! EvictionCooldownAnnotation = Some stamp
      ∧ timeParse stamp = Some deadline
      ∧ now < deadline.
Proof.
  unfold inCooldown, deadlineOf, cooldownAnnotation. split.
  - destruct (ownerOf env pod) as [[owner|]|]; try done.
    destruct (objAnnotations owner) as [annotations|] eqn:Ha; simpl; [|done].
    destruct (annotations !! EvictionCooldownAnnotation) as [stamp|] eqn:Hs;
      simpl; [|done].
    destruct (timeParse stamp) as [deadline|] eqn:Hp; [|done].
    intros Hlt%Z.ltb_lt. exists owner, annotations, stamp, deadline. done.
  - intros (owner & annotations & stamp & deadline & -> & -> & Hs & Hp & Hlt).
    simpl. rewrite Hs. simpl. rewrite Hp. by apply Z.ltb_lt.
Qed.

(** X18: when a turn skips a pod for cooldown.  The turn records the
    EvictionSkipped event exactly when the owner resolved, carries the
    cooldown annotation, the annotation parses as a timestamp, and the clock
    reads strictly less than it; in every other case (lookup failure, no
    owner, no annotations, no or malformed cooldown annotation, deadline
    reached) the turn goes on to list the budgets. *)
Theorem cooldown_skip_exactly_when (nodeName : string)
    (workloadProfiles : gmap string WorkloadProfile) (pod : Pod)
    (evictedCount clock : Z) :
  (RecordEvent "Normal" "EvictionSkipped" (podName pod)
     ∈ traceOf (evaluatePod env r nodeName workloadProfiles pod evictedCount clock)
   ↔ ∃ owner annotations stamp deadline,
       valueOf (getPodOwner env pod clock) = Ok (Some owner)
       ∧ objAnnotations owner = Some annotations
       ∧ annotations !! EvictionCooldownAnnotation = Some stamp
       ∧ timeParse stamp = Some deadline
       ∧ clock < deadline)
  ∧ (RecordEvent "Normal" "EvictionSkipped" (podName pod)
       ∉ traceOf (evaluatePod env r nodeName workloadProfiles pod evictedCount clock) →
     ListBudgets (podNamespace pod)
       ∈ traceOf (evaluatePod env r nodeName workloadProfiles pod evictedCount clock)).
Proof.
  assert (valueOf (getPodOwner env pod clock) = ownerOf env pod) as ->
    by by rewrite getPodOwner_run.
  rewrite <-inCooldown_true.
  assert (RecordEvent "Normal" "EvictionSkipped" (podName pod) ∉ ownerLookups env pod)
    as Hlook.
  { intros Hin. pose proof (ownerLookups_gets env pod) as Hall.
    rewrite Forall_forall in Hall. by destruct (Hall _ Hin) as (? & ? & ? & ?). }
  rewrite evaluatePod_run. simpl.
  destruct (inCooldown env pod clock).
  { split; [split; [done|]|].
    - intros _. unfold traceOf. simpl. apply elem_of_app. right.
      apply elem_of_cons. by left.
    - intros Hnot. destruct Hnot. unfold traceOf. simpl. apply elem_of_app. right.
      apply elem_of_cons. by left. }
  assert (∀ rest,
            RecordEvent "Normal" "EvictionSkipped" (podName pod) ∉ rest →
            (RecordEvent "Normal" "EvictionSkipped" (podName pod)
               ∈ ownerLookups env pod ++ ListBudgets (podNamespace pod) :: rest
             ↔ false = true)
            ∧ (RecordEvent "Normal" "EvictionSkipped" (podName pod)
                 ∉ ownerLookups env pod ++ ListBudgets (podNamespace pod) :: rest
               → ListBudgets (podNamespace pod)
                   ∈ ownerLookups env pod ++ ListBudgets (podNamespace pod) :: rest))
    as Hgo.
  { intros rest Hrest. split.
    - split; [|done]. intros [?|[?|?]%elem_of_cons]%elem_of_app; done.
    - intros _. apply elem_of_app. right. apply elem_of_cons. by left. }
  destruct (budgetVerdict env pod).
  { unfold traceOf; simpl. apply Hgo. by intros [?|?%elem_of_nil]%elem_of_cons. }
  destruct (workloadProfiles !! workloadTypeOf pod).
  2: { unfold traceOf; simpl. apply Hgo. by intros ?%elem_of_nil. }
  destruct (createEviction env pod) as [err|].
  { destruct (IsTooManyRequests err); unfold traceOf; simpl; apply Hgo;
      by intros [?|[?|?%elem_of_nil]%elem_of_cons]%elem_of_cons. }
  destruct (ownerOf env pod) as [[owner|]|].
  - rewrite setCooldown_run. unfold traceOf; simpl. apply Hgo.
    intros [?|[?|[?|[Hev|?%elem_of_nil]%elem_of_cons]%elem_of_cons]%elem_of_cons]%elem_of_cons;
      try done.
    by destruct (patchObject env _).
  - unfold traceOf; simpl. apply Hgo.
    by intros [?|[?|?%elem_of_nil]%elem_of_cons]%elem_of_cons.
  - unfold traceOf; simpl. apply Hgo.
    by intros [?|[?|?%elem_of_nil]%elem_of_cons]%elem_of_cons.
Qed.

(** X19: what an invocation patches.  Every patch is of the owner that was
    resolved for a pod whose eviction the API server accepted in this
    invocation; the patched object has the kind, name, namespace and owner
    references of that owner, and its annotations differ from the owner's at
    most under the cooldown key. *)
Theorem patches_only_cooldown_of_owner (clock : Z) (patched : Object) :
  PatchObject patched ∈ traceOf (Reconcile env r clock) →
  ∃ pod owner annotations,
    CreateEviction pod 30 ∈ traceOf (Reconcile env r clock)
    ∧ createEviction env pod = None
    ∧ ownerOf env pod = Ok (Some owner)
    ∧ objKind patched = objKind owner
    ∧ objName patched = objName owner
    ∧ objNamespace patched = objNamespace owner
    ∧ objOwnerReferences patched = objOwnerReferences owner
    ∧ objAnnotations patched = Some annotations
    ∧ is_Some (annotations !! EvictionCooldownAnnotation)
    ∧ ∀ key, key ≠ EvictionCooldownAnnotation →
             annotations !! key = default ∅ (objAnnotations owner) !! key.
Proof.
  intros Hin.
  destruct (Reconcile_Walk env r clock)
    as (setup & visited & body & returned & Hsplit & Hsetup & Hw & _).
  rewrite Hsplit in Hin. apply elem_of_app in Hin as [Hin|Hin].
  { rewrite Forall_forall in Hsetup. by destruct (Hsetup _ Hin). }
  destruct returned as [[res err]|]; cycle 1.
  { destruct (Walk_none _ _ _ _ _ _ _ Hw) as [Hbody _].
    rewrite Forall_forall in Hbody. by destruct (Hbody _ Hin). }
  destruct (Walk_some _ _ _ _ _ _ _ _ _ Hw)
    as (_ & pre & pod & post & skipped & check & -> & Hpre & _ & _ & _ & _ & _ & Hend).
  apply elem_of_app in Hin as [Hin|Hin].
  { rewrite Forall_forall in Hpre. by destruct (Hpre _ Hin). }
  apply elem_of_cons in Hin as [?|Hin]; [done|].
  destruct Hend as [(e & _ & _ & _ & ->)|(Hev & _ & ->)].
  { by apply elem_of_cons in Hin as [?|?%elem_of_nil]. }
  apply elem_of_cons in Hin as [?|Hin]; [done|]. unfold cooldownUpdate in Hin.
  destruct (ownerOf env pod) as [[owner|]|] eqn:Howner;
    [|by apply elem_of_nil in Hin..].
  apply elem_of_cons in Hin as [[= ->]|Hin]; cycle 1.
  { apply elem_of_cons in Hin as [Hin|?%elem_of_nil]; [|done].
    by destruct (patchObject env _). }
  exists pod, owner. eexists. split_and!; try done.
  - rewrite Hsplit. apply elem_of_app. right. apply elem_of_app. right.
    apply elem_of_cons. by left.
  - rewrite lookup_insert_eq. eauto.
  - intros key Hkey. by rewrite lookup_insert_ne.
Qed.

(** X20: the arithmetic of the new deadline.  [setCooldown] first issues
    the patch of the owner whose cooldown annotation is the formatted
    instant [time.Now().Add(r.RecheckInterval * 2)].  For a recheck
    interval of the range of [time.Duration], the 64-bit product
    [RecheckInterval * 2] is the true double exactly when the interval lies
    between -2^62 and 2^62; and the instant handed to [Format], before it
    is cut to the resolution of the format, lies after the reading of the
    clock exactly when the interval is positive and below 2^62 nanoseconds,
    or so negative that the product wraps around. *)
Theorem cooldown_deadline_arithmetic (owner : Object) (clock : Z) :
  - 2 ^ 63 ≤ RecheckInterval r < 2 ^ 63 →
  let instant := clock + wrap64 (RecheckInterval r * 2) in
  traceOf (setCooldown env r owner clock) !! 0%nat
  = Some (PatchObject (withCooldown owner instant))
  ∧ cooldownAnnotation (withCooldown owner instant) = Some (timeFormat instant)
  ∧ (wrap64 (RecheckInterval r * 2) = RecheckInterval r * 2
     ↔ - 2 ^ 62 ≤ RecheckInterval r < 2 ^ 62)
  ∧ (clock < instant
     ↔ 0 < RecheckInterval r < 2 ^ 62
       ∨ - 2 ^ 63 < RecheckInterval r < - 2 ^ 62).
Proof.
  intros Hrange instant. subst instant. rewrite setCooldown_run.
  split; [done|]. split.
  { unfold cooldownAnnotation, withCooldown. simpl. apply lookup_insert_eq. }
  unfold wrap64.
  change (2 ^ 64) with 18446744073709551616.
  change (2 ^ 63) with 9223372036854775808 in *.
  change (2 ^ 62) with 4611686018427387904.
  pose proof (Z.mod_pos_bound (RecheckInterval r * 2 + 9223372036854775808)
                18446744073709551616 eq_refl) as Hmod.
  pose proof (Z.div_mod (RecheckInterval r * 2 + 9223372036854775808)
                18446744073709551616) as Hdiv.
  specialize (Hdiv ltac:(lia)).
  split; lia.
Qed.

End Cooldown.

Lemma cooldown_deadline_arithmetic_witness :
  wrap64 (RecheckInterval sampleRebalancer * 2) = RecheckInterval sampleRebalancer * 2
  ↔ - 2 ^ 62 ≤ RecheckInterval sampleRebalancer < 2 ^ 62.
Proof.
  apply (cooldown_deadline_arithmetic (rt:=insertionRuntime) cooledCluster
           sampleRebalancer (webDeployment None) newYear).
  vm_compute. split; [discriminate|reflexivity].
Defined.

Lemma patches_only_cooldown_of_owner_witness :
  ∃ pod owner annotations,
    CreateEviction pod 30
      ∈ traceOf (Reconcile (rt:=insertionRuntime) cooledCluster sampleRebalancer newYear)
    ∧ createEviction cooledCluster pod = None
    ∧ ownerOf (rt:=insertionRuntime) cooledCluster pod = Ok (Some owner)
    ∧ objKind (webDeployment (cooldownUntil "2026-01-01T00:04:00Z")) = objKind owner
    ∧ objName (webDeployment (cooldownUntil "2026-01-01T00:04:00Z")) = objName owner
    ∧ objNamespace (webDeployment (cooldownUntil "2026-01-01T00:04:00Z"))
      = objNamespace owner
    ∧ objOwnerReferences (webDeployment (cooldownUntil "2026-01-01T00:04:00Z"))
      = objOwnerReferences owner
    ∧ objAnnotations (webDeployment (cooldownUntil "2026-01-01T00:04:00Z"))
      = Some annotations
    ∧ is_Some (annotations !! EvictionCooldownAnnotation)
    ∧ ∀ key, key ≠ EvictionCooldownAnnotation →
             annotations !! key = default ∅ (objAnnotations owner) !! key.
Proof.
  apply (patches_only_cooldown_of_owner (rt:=insertionRuntime) cooledCluster
           sampleRebalancer newYear).
  assert (traceOf (Reconcile (rt:=insertionRuntime) cooledCluster
                     sampleRebalancer newYear)
          = (sampleSetup ++ webLookups
             ++ [ListBudgets "default"; CreateEviction podW 30;
                 RecordEvent "Normal" "PodEvicted" "web-1"])
            ++ PatchObject (webDeployment (cooldownUntil "2026-01-01T00:04:00Z"))
               :: [RecordEvent "Normal" "CooldownSet" "web"]) as ->
    by (vm_compute; reflexivity).
  apply elem_of_app. right. apply elem_of_cons. by left.
Defined.

(** ** The value of the cap *)

Section Cap.
Context `{rt : GoRuntime} (env : Env) (r r' : PodRebalancer).
Hypothesis Hprofiles : Profiles r = Profiles r'.
Hypothesis Hinterval : RecheckInterval r = RecheckInterval r'.
Hypothesis Hcap : 0 < MaxEvictionsPerNodePerCycle r.
Hypothesis Hcap' : 0 < MaxEvictionsPerNodePerCycle r'.

Lemma evaluatePod_cap (nodeName : string)
    (workloadProfiles : gmap string WorkloadProfile) (pod : Pod)
    (evictedCount clock : Z) :
  evaluatePod env r nodeName workloadProfiles pod evictedCount clock
  = evaluatePod env r' nodeName workloadProfiles pod evictedCount clock.
Proof.
  rewrite !evaluatePod_run. simpl.
  destruct (ownerOf env pod) as [[owner|]|]; try done.
  by rewrite !setCooldown_run, Hinterval.
Qed.

Lemma walkPods_cap (nodeName : string)
    (workloadProfiles : gmap string WorkloadProfile) (pods : list Pod) (clock : Z) :
  walkPods env r nodeName workloadProfiles pods 0 clock
  = walkPods env r' nodeName workloadProfiles pods 0 clock.
Proof.
  revert clock. induction pods as [|pod rest IH]; intros clock; simpl; [done|].
  rewrite (proj2 (Z.leb_gt _ _) Hcap), (proj2 (Z.leb_gt _ _) Hcap').
  unfold mbind, M_bind. rewrite evaluatePod_cap.
  destruct (evaluatePod env r' nodeName workloadProfiles pod 0 clock)
    as [[[count|res err] clock1] issued] eqn:Hev; [|done].
  pose proof (evaluatePod_continue env r' workloadProfiles _ _ _ _ _ _ _ Hev) as ->.
  by rewrite IH.
Qed.

Lemma processNodes_cap (workloadProfiles : gmap string WorkloadProfile)
    (podList : list Pod) (nodeNames : list string) (clock : Z) :
  processNodes env r workloadProfiles podList nodeNames clock
  = processNodes env r' workloadProfiles podList nodeNames clock.
Proof.
  revert clock. induction nodeNames as [|nodeName rest IH]; intros clock; simpl; [done|].
  case_bool_decide; [apply IH|].
  unfold mbind, M_bind. rewrite walkPods_cap.
  destruct (walkPods env r' nodeName workloadProfiles _ 0 clock)
    as [[[res|] clock1] issued]; [done|].
  by rewrite IH.
Qed.

(** X21: the per-node counter of evictions is incremented only on the path
    that returns, so the cap acts as a switch: two controllers with the same
    profiles and recheck interval and with positive caps, whatever their
    values, run every invocation alike. *)
Theorem positive_caps_behave_alike (clock : Z) :
  Reconcile env r clock = Reconcile env r' clock.
Proof.
  unfold Reconcile. rewrite <-Hprofiles, <-Hinterval.
  case_bool_decide; [done|].
  unfold mbind, M_bind. simpl.
  destruct (listNodes env) as [nodeList|err]; [|done].
  destruct (identifyDegraded nodeList ∅ clock) as [[degradedNodes clock1] events].
  case_bool_decide; [done|]. simpl.
  destruct (listPods env) as [podList|err]; [|done].
  by rewrite processNodes_cap.
Qed.

End Cap.

Lemma positive_caps_behave_alike_witness :
  Reconcile (rt:=insertionRuntime) refusingCluster sampleRebalancer newYear
  = Reconcile (rt:=insertionRuntime) refusingCluster generousRebalancer newYear.
Proof.
  apply (positive_caps_behave_alike (rt:=insertionRuntime) refusingCluster
           sampleRebalancer generousRebalancer); reflexivity.
Defined.
